(** * Vibe Architect: the prompt chunk parser, the repository fetcher,
      the agents and the pipeline controller, embedded from the
      TypeScript sources.

    - [JsString]  : JavaScript strings as sequences of UTF-16 code units,
                    with the [String.prototype] methods the sources call.
    - [Regex]     : a backtracking matcher for the regular-expression
                    constructs of the sources, and [matchAll];
                    [Search] adds [exec].
    - [Parser]    : [parsePrompts] (App.tsx).
    - [GitHub]    : [parseRepoUrl] and [fetchRepoContents]
                    (services/githubService.ts).
    - [Controller]: [executePipeline] and [executeRefinement] (App.tsx).
    - [Gemini]    : [formatRepoForPrompt] and the four agents
                    (services/geminiService.ts).
    - [Images]    : the reference images (App.tsx).
    - [Display]   : what a render derives from the state (App.tsx,
                    components/AgentCard.tsx,
                    components/MarkdownRenderer.tsx). *)

From Stdlib Require Import List Bool Arith NArith ZArith Lia String Ascii.
From Stdlib Require Import Permutation Sorted.
From Stdlib Require QArith.
Import ListNotations.

Set Implicit Arguments.

(* ===================================================================== *)
(** ** JavaScript strings *)
(* ===================================================================== *)

Module JsString.

(** A JavaScript string is a sequence of 16-bit code units; every method
    below works code unit by code unit, as the non-unicode methods of
    [String.prototype] do. *)
Definition codeunit := N.
Definition jsstring := list codeunit.

(** String literals of the sources, written as Rocq strings. *)
Definition js (s : string) : jsstring :=
  map N_of_ascii (list_ascii_of_string s).

Definition LF : codeunit := 10%N.
Definition SLASH : codeunit := 47%N.

Fixpoint eqb (a b : jsstring) : bool :=
  match a, b with
  | [], [] => true
  | x :: a', y :: b' => N.eqb x y && eqb a' b'
  | _, _ => false
  end.

(** [!s] and [s || d] on a string: the empty string is the one falsy
    string. *)
Definition falsy (s : jsstring) : bool :=
  match s with [] => true | _ => false end.

Definition or_else (s d : jsstring) : jsstring :=
  if falsy s then d else s.

(** ECMAScript [LineTerminator]: LF, CR, LS, PS. *)
Definition is_line_terminator (c : codeunit) : bool :=
  (N.eqb c 10 || N.eqb c 13 || N.eqb c 8232 || N.eqb c 8233)%N.

(** ECMAScript [WhiteSpace]: TAB, VT, FF, ZWNBSP and the code points of
    category Zs. *)
Definition is_white_space (c : codeunit) : bool :=
  (N.eqb c 9 || N.eqb c 11 || N.eqb c 12 || N.eqb c 65279
   || N.eqb c 32 || N.eqb c 160 || N.eqb c 5760
   || (N.leb 8192 c && N.leb c 8202)
   || N.eqb c 8239 || N.eqb c 8287 || N.eqb c 12288)%N.

(** What [trim] strips and what the class [\s] matches. *)
Definition is_space (c : codeunit) : bool :=
  is_white_space c || is_line_terminator c.

Fixpoint trimStart (s : jsstring) : jsstring :=
  match s with
  | c :: s' => if is_space c then trimStart s' else s
  | [] => []
  end.

Definition trimEnd (s : jsstring) : jsstring :=
  rev (trimStart (rev s)).

Definition trim (s : jsstring) : jsstring :=
  trimEnd (trimStart s).

(** [s.startsWith(w)], returning what follows [w]. *)
Fixpoint strip_prefix (w s : jsstring) : option jsstring :=
  match w with
  | [] => Some s
  | c :: w' =>
      match s with
      | x :: s' => if N.eqb x c then strip_prefix w' s' else None
      | [] => None
      end
  end.

Definition startsWith (s w : jsstring) : bool :=
  match strip_prefix w s with Some _ => true | None => false end.

Definition endsWith (s w : jsstring) : bool :=
  startsWith (rev s) (rev w).

Fixpoint includes (s w : jsstring) : bool :=
  startsWith s w ||
  match s with
  | _ :: s' => includes s' w
  | [] => false
  end.

(** [s.split(sep)] for a one-character separator: always at least one
    part, the empty string splits into one empty part. *)
Fixpoint split (sep : codeunit) (s : jsstring) : list jsstring :=
  match s with
  | [] => [[]]
  | x :: s' =>
      if N.eqb x sep then [] :: split sep s'
      else match split sep s' with
           | p :: ps => (x :: p) :: ps
           | [] => [[x]]
           end
  end.

(** [s.replace(/\/$/, '')]: the pattern matches one slash standing at the
    end of the input, the first (and only) match is removed. *)
Definition replace_trailing_slash (s : jsstring) : jsstring :=
  match rev s with
  | c :: r => if N.eqb c SLASH then rev r else s
  | [] => s
  end.

End JsString.

(* ===================================================================== *)
(** ** Regular expressions *)
(* ===================================================================== *)

Module Regex.
Import JsString.

(** The pattern constructs of the sources.  A quantifier is applied to
    character classes only ([\d+], [.*?], [[\s\S]*?]), which is what the
    syntax tree allows: [Rep greedy min p] is [p{min,}] or [p{min,}?]. *)
Inductive regex : Type :=
| Eps
| Chr (c : codeunit)
| Cls (p : codeunit -> bool)
| Cat (r1 r2 : regex)
| Alt (r1 r2 : regex)
| Grp (i : nat) (r : regex)
| Rep (greedy : bool) (min : nat) (p : codeunit -> bool)
| Ahead (r : regex).

(** Captures: group number and captured substring, latest first. *)
Definition captures := list (nat * jsstring).

Fixpoint capture (i : nat) (c : captures) : option jsstring :=
  match c with
  | [] => None
  | (j, v) :: c' => if Nat.eqb i j then Some v else capture i c'
  end.

(** A match state is the not yet consumed input and the captures; a
    successful match yields the final state. *)
Definition result := option (jsstring * captures).
Definition continuation := jsstring -> captures -> result.

(** The quantifier: [min] mandatory iterations, then as many (greedy) or
    as few (lazy) as the continuation accepts. *)
Fixpoint rep (greedy : bool) (p : codeunit -> bool) (min : nat)
    (s : jsstring) (k : jsstring -> result) {struct s} : result :=
  match min with
  | S n =>
      match s with
      | x :: s' => if p x then rep greedy p n s' k else None
      | [] => None
      end
  | O =>
      if greedy then
        match s with
        | x :: s' =>
            if p x then
              match rep greedy p O s' k with
              | Some r => Some r
              | None => k s
              end
            else k s
        | [] => k s
        end
      else
        match k s with
        | Some r => Some r
        | None =>
            match s with
            | x :: s' => if p x then rep greedy p O s' k else None
            | [] => None
            end
        end
  end.

(** The backtracking matcher, in the continuation-passing style of the
    ECMAScript specification: [run r s c k] matches [r] at the front of
    [s] and hands the rest to [k]; alternatives are tried left to right. *)
Fixpoint run (r : regex) (s : jsstring) (c : captures) (k : continuation)
    : result :=
  match r with
  | Eps => k s c
  | Chr ch =>
      match s with
      | x :: s' => if N.eqb x ch then k s' c else None
      | [] => None
      end
  | Cls p =>
      match s with
      | x :: s' => if p x then k s' c else None
      | [] => None
      end
  | Cat r1 r2 => run r1 s c (fun s1 c1 => run r2 s1 c1 k)
  | Alt r1 r2 =>
      match run r1 s c k with
      | Some res => Some res
      | None => run r2 s c k
      end
  | Grp i r1 =>
      run r1 s c
        (fun s1 c1 =>
           k s1 ((i, firstn (List.length s - List.length s1) s) :: c1))
  | Rep greedy min p => rep greedy p min s (fun s1 => k s1 c)
  | Ahead r1 =>
      match run r1 s c (fun s1 c1 => Some (s1, c1)) with
      | Some (_, c1) => k s c1
      | None => None
      end
  end.

(** A literal run of pattern characters. *)
Fixpoint lit (w : jsstring) : regex :=
  match w with
  | [] => Eps
  | c :: w' => Cat (Chr c) (lit w')
  end.

(** One match attempt at the front of [s]: the captures and the length
    of the matched text. *)
Definition exec_at (r : regex) (s : jsstring) : option (captures * nat) :=
  match run r s [] (fun s1 c1 => Some (s1, c1)) with
  | Some (s1, c1) => Some (c1, List.length s - List.length s1)
  | None => None
  end.

(** [[...text.matchAll(r)]] for a global [r]: the matches from left to
    right.  [skip] counts the positions still covered by the previous
    match; after a match of length [n] the search resumes [n] positions
    further (one position further when the match is empty). *)
Fixpoint matchAll_from (r : regex) (skip : nat) (s : jsstring)
    : list captures :=
  match skip with
  | S n =>
      match s with
      | _ :: s' => matchAll_from r n s'
      | [] => []
      end
  | O =>
      match exec_at r s with
      | Some (c, n) =>
          c :: match s with
               | _ :: s' => matchAll_from r (n - 1) s'
               | [] => []
               end
      | None =>
          match s with
          | _ :: s' => matchAll_from r 0 s'
          | [] => []
          end
      end
  end.

Definition matchAll (r : regex) (text : jsstring) : list captures :=
  matchAll_from r 0 text.

End Regex.

(* ===================================================================== *)
(** ** The prompt chunk parser (App.tsx) *)
(* ===================================================================== *)

Module Parser.
Import JsString Regex.

Record ParsedPrompt : Type := mkPrompt {
  id : jsstring;
  title : jsstring;
  content : jsstring
}.

(** [\d] *)
Definition is_digit (c : codeunit) : bool :=
  (N.leb 48 c && N.leb c 57)%N.

(** [.] without the [s] flag: anything but a line terminator. *)
Definition is_dot (c : codeunit) : bool :=
  negb (is_line_terminator c).

(** [[\s\S]] *)
Definition is_any (c : codeunit) : bool :=
  is_space c || negb (is_space c).

Definition LOWER_Z : codeunit := 122%N.

(** [/=== PROMPT (\d+): (.*?) ===([\s\S]*?)(?=(=== PROMPT|\z))/g].
    The pattern has no [u] flag, so [\z] is an identity escape: it
    matches the letter z. *)
Definition regex : Regex.regex :=
  Cat (lit (js "=== PROMPT "))
 (Cat (Grp 1 (Rep true 1 is_digit))
 (Cat (lit (js ": "))
 (Cat (Grp 2 (Rep false 0 is_dot))
 (Cat (lit (js " ==="))
 (Cat (Grp 3 (Rep false 0 is_any))
      (Ahead (Grp 4 (Alt (lit (js "=== PROMPT")) (Chr LOWER_Z))))))))).

(** [match[i]]; the groups 1 to 3 take part in every match of [regex]. *)
Definition group (i : nat) (m : captures) : jsstring :=
  match capture i m with
  | Some v => v
  | None => []
  end.

Definition parsePrompts (text : jsstring) : list ParsedPrompt :=
  let matches := matchAll regex text in
  if Nat.eqb (List.length matches) 0 then
    [mkPrompt (js "1") (js "Complete Mission") text]
  else
    map (fun m => mkPrompt (group 1 m) (group 2 m) (trim (group 3 m)))
        matches.

End Parser.

(* ===================================================================== *)
(** ** Results of asynchronous calls *)
(* ===================================================================== *)

(** An awaited call either resolves with a value or rejects with an error;
    only the error's [message] is ever read.  A thrown value without a
    message reads as the empty (falsy) message. *)
Inductive Exc (A : Type) : Type :=
| Return (a : A)
| Throw (message : JsString.jsstring).

Arguments Return {A} a.
Arguments Throw {A} message.

(* ===================================================================== *)
(** ** The repository fetcher (services/githubService.ts) *)
(* ===================================================================== *)

Module GitHub.
Import JsString.

Record RepoFile : Type := mkRepoFile {
  path : jsstring;
  content : jsstring;
  size : N
}.

Inductive ItemType : Type := blob | tree.

Record GitHubTreeItem : Type := mkItem {
  item_path : jsstring;
  item_mode : jsstring;
  item_type : ItemType;
  item_sha : jsstring;
  item_size : option N;
  item_url : jsstring
}.

(** The body of a tree response, as [response.json()] yields it. *)
Record TreeData : Type := mkTreeData {
  data_url : jsstring;
  data_tree : list GitHubTreeItem
}.

(** What the sources read of a [fetch] response. *)
Record Response : Type := mkResponse {
  ok : bool;
  status : N;
  statusText : jsstring;
  json : Exc TreeData;
  text : Exc jsstring
}.

Definition GITHUB_API_BASE : jsstring := js "https://api.github.com/repos".

Definition parseRepoUrl (url : jsstring) : option (jsstring * jsstring) :=
  let cleanUrl := replace_trailing_slash url in
  let parts := split SLASH cleanUrl in
  if Nat.ltb (List.length parts) 2 then None
  else
    let repo := nth (List.length parts - 1) parts [] in
    let owner := nth (List.length parts - 2) parts [] in
    Some (owner, repo).

Definition codeExtensions : list jsstring :=
  map js [".ts"; ".tsx"; ".js"; ".jsx"; ".py"; ".rb"; ".go"; ".rs";
          ".java"; ".c"; ".cpp"; ".h"; ".css"; ".html"; ".json"; ".md"]%string.

Definition isCode (p : jsstring) : bool :=
  existsb (fun ext => endsWith p ext) codeExtensions.

Definition isLock (p : jsstring) : bool :=
  includes p (js "lock") || includes p (js "node_modules")
  || includes p (js "dist/") || includes p (js "build/").

Definition is_blob (t : ItemType) : bool :=
  match t with blob => true | tree => false end.

(** The callback of [tree.filter]. *)
Definition relevant (item : GitHubTreeItem) : bool :=
  if negb (is_blob (item_type item)) then false
  else isCode (item_path item) && negb (isLock (item_path item)).

Definition is_manifest (p : jsstring) : bool :=
  endsWith p (js "package.json").

Definition depth (p : jsstring) : nat :=
  List.length (split SLASH p).

(** The comparator handed to [relevantFiles.sort]. *)
Definition compareFiles (a b : GitHubTreeItem) : Z :=
  if is_manifest (item_path a) then (-1)%Z
  else if is_manifest (item_path b) then 1%Z
  else (Z.of_nat (depth (item_path a)) - Z.of_nat (depth (item_path b)))%Z.

(** [Array.prototype.sort(cmp)], as an insertion sort: the elements are
    taken from left to right and each one is placed before the first
    element it compares below, so equal elements keep their order. *)
Section Sort.
Variable A : Type.
Variable cmp : A -> A -> Z.

Fixpoint insert (x : A) (l : list A) : list A :=
  match l with
  | [] => [x]
  | y :: l' => if Z.ltb (cmp x y) 0 then x :: l else y :: insert x l'
  end.

Definition sort (l : list A) : list A :=
  fold_left (fun acc x => insert x acc) l [].
End Sort.

(** The effects of the fetcher: the URLs handed to [fetch], in order. *)
Definition io (A : Type) : Type := (list jsstring * Exc A)%type.

Definition ret {A} (a : A) : io A := ([], Return a).
Definition throw {A} (m : jsstring) : io A := ([], Throw m).
Definition bind {A B} (p : io A) (f : A -> io B) : io B :=
  match p with
  | (t, Return a) => let '(t', r) := f a in (t ++ t', r)
  | (t, Throw m) => (t, Throw m)
  end.
Definition lift {A} (r : Exc A) : io A := ([], r).

(** [try { p } catch (e) { return d }] *)
Definition try_or {A} (p : io A) (d : A) : io A :=
  match p with
  | (t, Return a) => (t, Return a)
  | (t, Throw _) => (t, Return d)
  end.

Notation "x <- p ;; q" := (bind p (fun x => q))
  (at level 61, p at next level, right associativity).

Fixpoint all {A B} (f : A -> io B) (l : list A) : io (list B) :=
  match l with
  | [] => ret []
  | a :: l' => b <- f a ;; bs <- all f l' ;; ret (b :: bs)
  end.

Section Fetch.
(** The network: what [fetch(url)] resolves or rejects with. *)
Variable net : jsstring -> Exc Response.

Definition fetch (url : jsstring) : io Response := ([url], net url).

Definition treeUrl (owner repo branch : jsstring) : jsstring :=
  GITHUB_API_BASE ++ js "/" ++ owner ++ js "/" ++ repo
    ++ js "/git/trees/" ++ branch ++ js "?recursive=1".

Definition rawUrl (owner repo branch p : jsstring) : jsstring :=
  js "https://raw.githubusercontent.com/" ++ owner ++ js "/" ++ repo
    ++ js "/" ++ branch ++ js "/" ++ p.

(** [file.size || text.length] *)
Definition size_or (sz : option N) (t : jsstring) : N :=
  match sz with
  | Some n => if N.eqb n 0 then N.of_nat (List.length t) else n
  | None => N.of_nat (List.length t)
  end.

(** The callback of [limitedFiles.map]: one file, or [null]. *)
Definition fetchFile (owner repo : jsstring) (data : TreeData)
    (file : GitHubTreeItem) : io (option RepoFile) :=
  let branch :=
    if includes (data_url data) (js "master") then js "master"
    else js "main" in
  let url := rawUrl owner repo branch (item_path file) in
  try_or
    (fileRes <- fetch url ;;
     if negb (ok fileRes) then ret None
     else
       t <- lift (text fileRes) ;;
       ret (Some (mkRepoFile (item_path file) t
                             (size_or (item_size file) t))))
    None.

Fixpoint non_null {A} (l : list (option A)) : list A :=
  match l with
  | [] => []
  | Some a :: l' => a :: non_null l'
  | None :: l' => non_null l'
  end.

Definition relevantFiles (data : TreeData) : list GitHubTreeItem :=
  filter relevant (data_tree data).

Definition limitedFiles (data : TreeData) : list GitHubTreeItem :=
  firstn 20 (sort compareFiles (relevantFiles data)).

Definition fetchRepoContents (repoUrl : jsstring) : io (list RepoFile) :=
  match parseRepoUrl repoUrl with
  | None =>
      throw (js "Invalid GitHub URL format. Use https://github.com/owner/repo")
  | Some (owner, repo) =>
      response <- fetch (treeUrl owner repo (js "main")) ;;
      response <-
        (if negb (ok response) && N.eqb (status response) 404
         then fetch (treeUrl owner repo (js "master"))
         else ret response) ;;
      if negb (ok response) then
        throw (js "Failed to fetch repo tree: " ++ statusText response
                 ++ js ". Ensure repo is public.")
      else
        data <- lift (json response) ;;
        results <- all (fetchFile owner repo data) (limitedFiles data) ;;
        ret (non_null results)
  end.
End Fetch.

End GitHub.

(* ===================================================================== *)
(** ** The pipeline controller (types.ts, App.tsx) *)
(* ===================================================================== *)

Module Controller.
Import JsString.

Inductive AgentStatus : Type :=
| IDLE
| FETCHING_REPO
| SCOUT_WORKING
| ARCHITECT_WORKING
| TASKMASTER_WORKING
| REFINING
| COMPLETED
| ERROR.

Definition RepoFile := GitHub.RepoFile.

Record ImageRef : Type := mkImageRef {
  data : jsstring;
  mimeType : jsstring
}.

Record AgentState : Type := mkAgentState {
  status : AgentStatus;
  missionLog : jsstring;
  finalPrompt : option jsstring;
  error : option jsstring
}.

Definition INITIAL_MISSION_LOG : jsstring :=
  List.concat (map (fun l => js l ++ [LF])
    [ "# MISSION CONTROL";
      "**Language:** TypeScript (.tsx)";
      "**Framework:** React 18+ (ESM)";
      EmptyString;
      "## ENVIRONMENT MANIFESTO (IMMUTABLE LAWS)";
      "* **SDK:** MUST use `@google/genai` (NOT `@google/generative-ai`).";
      "* **Styling:** Tailwind via CDN only. NO `.css` files. NO `styled-components`.";
      "* **Routing:** `HashRouter` only (No history API).";
      "* **Icons:** `lucide-react` only.";
      "* **Structure:** Flat root (./). NO `/src` folder. `index.tsx` is entry.";
      "* **TS Rules:** Use `interface` (not type). Use `enum` (not const enum)."
    ]%string).

(** The component's hooks: the input fields, the agent state and the
    ref that retains the fetched files. *)
Record App : Type := mkApp {
  repoUrl : jsstring;
  objective : jsstring;
  errorFeedback : jsstring;
  referenceImages : list ImageRef;
  refinementInput : jsstring;
  state : AgentState;
  repoFilesRef : list RepoFile
}.

Definition initialApp : App :=
  mkApp [] [] [] [] []
        (mkAgentState IDLE INITIAL_MISSION_LOG None None) [].

(** The calls the controller awaits, with their arguments. *)
Inductive Call : Type :=
| FetchRepoContents (repoUrl : jsstring)
| ScoutAgent (objective errorFeedback : jsstring) (files : list RepoFile)
             (images : list ImageRef)
| ArchitectAgent (currentMissionLog objective errorFeedback : jsstring)
                 (images : list ImageRef)
| TaskmasterAgent (fullMissionLog : jsstring) (files : list RepoFile)
| RefinerAgent (currentPrompts feedback fullMissionLog : jsstring)
               (files : list RepoFile).

(** What an observer of the controller sees, in order: every agent state
    it commits and every call it issues. *)
Inductive Event : Type :=
| Committed (s : AgentState)
| Called (c : Call).

(** The imported services: the repository fetcher and the four agents.
    Each is one awaited call that resolves or rejects. *)
Class Services : Type := {
  fetchRepoContents : jsstring -> Exc (list RepoFile);
  runScoutAgent :
    jsstring -> jsstring -> list RepoFile -> list ImageRef -> Exc jsstring;
  runArchitectAgent :
    jsstring -> jsstring -> jsstring -> list ImageRef -> Exc jsstring;
  runTaskmasterAgent : jsstring -> list RepoFile -> Exc jsstring;
  runRefinerAgent :
    jsstring -> jsstring -> jsstring -> list RepoFile -> Exc jsstring
}.

(** [!state.finalPrompt]: [null] and the empty string are falsy. *)
Definition falsy_opt (o : option jsstring) : bool :=
  match o with
  | None => true
  | Some s => falsy s
  end.

(** A handler runs on the hooks and the events so far; it may throw. *)
Definition World : Type := (App * list Event)%type.
Definition prog (A : Type) : Type := World -> Exc A * World.

Definition ret {A} (a : A) : prog A := fun w => (Return a, w).

Definition bind {A B} (p : prog A) (f : A -> prog B) : prog B :=
  fun w =>
    match p w with
    | (Return a, w') => f a w'
    | (Throw m, w') => (Throw m, w')
    end.

Notation "x <- p ;; q" := (bind p (fun x => q))
  (at level 61, p at next level, right associativity).
Notation "p ;;; q" := (bind p (fun _ => q))
  (at level 61, right associativity).

(** [try { p } catch (err) { h err.message }] *)
Definition try_catch (p : prog unit) (h : jsstring -> prog unit)
    : prog unit :=
  fun w =>
    match p w with
    | (Return a, w') => (Return a, w')
    | (Throw m, w') => h m w'
    end.

(** [setState(prev => f prev)] *)
Definition setState (f : AgentState -> AgentState) : prog unit :=
  fun w =>
    let a := fst w in
    let s := f (state a) in
    (Return tt,
     (mkApp (repoUrl a) (objective a) (errorFeedback a) (referenceImages a)
            (refinementInput a) s (repoFilesRef a),
      snd w ++ [Committed s])).

(** [repoFilesRef.current = files] *)
Definition setRepoFiles (files : list RepoFile) : prog unit :=
  fun w =>
    let a := fst w in
    (Return tt,
     (mkApp (repoUrl a) (objective a) (errorFeedback a) (referenceImages a)
            (refinementInput a) (state a) files,
      snd w)).

Definition setRefinementInput (v : jsstring) : prog unit :=
  fun w =>
    let a := fst w in
    (Return tt,
     (mkApp (repoUrl a) (objective a) (errorFeedback a) (referenceImages a)
            v (state a) (repoFilesRef a),
      snd w)).

(** [await c]: the call is issued, then its outcome is delivered. *)
Definition await {A} (c : Call) (r : Exc A) : prog A :=
  fun w => (r, (fst w, snd w ++ [Called c])).

Definition with_status (st : AgentStatus) (prev : AgentState) : AgentState :=
  mkAgentState st (missionLog prev) (finalPrompt prev) (error prev).

Definition with_missionLog (l : jsstring) (prev : AgentState) : AgentState :=
  mkAgentState (status prev) l (finalPrompt prev) (error prev).

Section Handlers.
Context {services : Services}.

Definition executePipeline : prog unit :=
  fun w =>
    let repoUrl := repoUrl (fst w) in
    let objective := objective (fst w) in
    let errorFeedback := errorFeedback (fst w) in
    let referenceImages := referenceImages (fst w) in
    if falsy repoUrl || falsy objective then ret tt w
    else
      (setState (fun prev =>
                   mkAgentState FETCHING_REPO INITIAL_MISSION_LOG None None) ;;;
       try_catch
         (files <- await (FetchRepoContents repoUrl)
                         (fetchRepoContents repoUrl) ;;
          setRepoFiles files ;;;
          setState (with_status SCOUT_WORKING) ;;;
          scoutLog <- await (ScoutAgent objective errorFeedback files
                                        referenceImages)
                            (runScoutAgent objective errorFeedback files
                                           referenceImages) ;;
          setState (with_missionLog scoutLog) ;;;
          setState (with_status ARCHITECT_WORKING) ;;;
          architectLog <- await (ArchitectAgent scoutLog objective
                                                errorFeedback referenceImages)
                                (runArchitectAgent scoutLog objective
                                                   errorFeedback
                                                   referenceImages) ;;
          setState (with_missionLog architectLog) ;;;
          setState (with_status TASKMASTER_WORKING) ;;;
          finalPrompt' <- await (TaskmasterAgent architectLog files)
                                (runTaskmasterAgent architectLog files) ;;
          setState (fun prev =>
                      mkAgentState COMPLETED (missionLog prev)
                                   (Some finalPrompt') (error prev)))
         (fun message =>
            setState (fun prev =>
              mkAgentState ERROR (missionLog prev) (finalPrompt prev)
                (Some (or_else message
                   (js "An unexpected error occurred in the pipeline.")))))
      ) w.

Definition executeRefinement : prog unit :=
  fun w =>
    let refinementInput := refinementInput (fst w) in
    let state0 := state (fst w) in
    let repoFiles := repoFilesRef (fst w) in
    if falsy refinementInput || falsy_opt (finalPrompt state0) then ret tt w
    else
      match finalPrompt state0 with
      | None => ret tt w
      | Some currentPrompts =>
          (setState (fun prev =>
                       mkAgentState REFINING (missionLog prev)
                                    (finalPrompt prev) None) ;;;
           try_catch
             (updatedPrompts <-
                await (RefinerAgent currentPrompts refinementInput
                                    (missionLog state0) repoFiles)
                      (runRefinerAgent currentPrompts refinementInput
                                       (missionLog state0) repoFiles) ;;
              setState (fun prev =>
                          mkAgentState COMPLETED (missionLog prev)
                                       (Some updatedPrompts) (error prev)) ;;;
              setRefinementInput [])
             (fun message =>
                setState (fun prev =>
                  mkAgentState ERROR (missionLog prev) (finalPrompt prev)
                    (Some (or_else message
                       (js "Failed to refine instructions.")))))
          ) w
      end.

(** [parsedPrompts], the view the component derives on every render. *)
Definition parsedPrompts (a : App) : list Parser.ParsedPrompt :=
  match finalPrompt (state a) with
  | Some p => if falsy p then [] else Parser.parsePrompts p
  | None => []
  end.
End Handlers.

(** The services of the running application: the fetcher over a network,
    and the agents as the external model answers them. *)
Definition liveServices (net : jsstring -> Exc GitHub.Response)
    (scout : jsstring -> jsstring -> list RepoFile -> list ImageRef -> Exc jsstring)
    (architect : jsstring -> jsstring -> jsstring -> list ImageRef -> Exc jsstring)
    (taskmaster : jsstring -> list RepoFile -> Exc jsstring)
    (refiner : jsstring -> jsstring -> jsstring -> list RepoFile -> Exc jsstring)
    : Services :=
  {| fetchRepoContents := fun url => snd (GitHub.fetchRepoContents net url);
     runScoutAgent := scout;
     runArchitectAgent := architect;
     runTaskmasterAgent := taskmaster;
     runRefinerAgent := refiner |}.

End Controller.

(* ===================================================================== *)
(** ** Searching with a pattern *)
(* ===================================================================== *)

Module Search.
Import JsString Regex.

(** [r.exec(s)] and [s.match(r)] for a pattern without the [g] flag: the
    leftmost match, tried position by position. *)
Fixpoint exec (r : regex) (s : jsstring) : option captures :=
  match exec_at r s with
  | Some (c, _) => Some c
  | None =>
      match s with
      | _ :: s' => exec r s'
      | [] => None
      end
  end.

End Search.

(* ===================================================================== *)
(** ** The agents (services/geminiService.ts) *)
(* ===================================================================== *)

Module Gemini.
Import JsString.

Definition RepoFile := GitHub.RepoFile.
Definition ImageRef := Controller.ImageRef.

Definition DQ : jsstring := [34%N].

(** [parts.join(sep)] *)
Fixpoint join (sep : jsstring) (l : list jsstring) : jsstring :=
  match l with
  | [] => []
  | x :: l' =>
      match l' with
      | [] => x
      | _ :: _ => x ++ sep ++ join sep l'
      end
  end.

(** The text of a template literal, line by line. *)
Definition lines (ls : list jsstring) : jsstring := join [LF] ls.

(** The callback of [files.map] in [formatRepoForPrompt]. *)
Definition fileBlock (f : RepoFile) : jsstring :=
  let path := GitHub.path in
  let content := GitHub.content in
  lines
  [ [];
    js "--- START FILE: " ]
  ++ path f
  ++ lines
  [ js " ---";
    [] ]
  ++ content f
  ++ lines
  [ [];
    js "--- END FILE: " ]
  ++ path f
  ++ lines
  [ js " ---";
    [] ].

Definition formatRepoForPrompt (files : list RepoFile) : jsstring :=
  join [LF] (map fileBlock files).

(** A request to the model: the parts of a multimodal prompt or a plain
    text, with the configuration of the call. *)
Inductive Part : Type :=
| TextPart (text : jsstring)
| InlineData (mimeType data : jsstring).

Inductive Contents : Type :=
| Parts (parts : list Part)
| Plain (text : jsstring).

Record Request : Type := mkRequest {
  model : jsstring;
  contents : Contents;
  systemInstruction : jsstring;
  temperature : QArith_base.Q
}.

Definition MODEL : jsstring := js "gemini-3-pro-preview".

Definition scoutInstruction : jsstring :=
  lines
  [ js "You are the Scout. Analyze the user's 'Mission Objective' (and any attached reference images) along with the provided GitHub Repo.";
    [];
    js "  **Compliance Audit:**";
    js "  1.  **Structure:** Verify the repo uses a flat structure (no `/src` folder). If it uses `/src`, note in 'Critical Context' that paths must be flattened for the Vibe environment.";
    js "  2.  **Forbidden Files:** Check for `.css`, `.scss`, or `.less` files. These are banned (Tailwind only).";
    js "  3.  **Legacy SDK:** Check for `@google/generative-ai`. Flag this, as strict usage of `@google/genai` is required.";
    [];
    js "  **Filter Noise:** Identify ONLY the files necessary for this specific mission. Do not list every file.";
    [];
    js "  **Summarize State:** Briefly explain what the current code in those specific files is doing.";
    [];
    js "  **Output:** Update the `MISSION_LOG`. Preserve the 'ENVIRONMENT MANIFESTO'.";
    js "  Add sections for:";
    js "  *   `## RELEVANT FILES`";
    js "  *   `## CRITICAL CONTEXT` (Include compliance audit findings here)";
    js "  " ].

Definition architectInstruction : jsstring :=
  lines
  [ js "You are the Architect. Read the `MISSION_LOG`.";
    [];
    js "  **Plan the Logic:** Write pseudo-code for the requested feature.";
    js "  *   **Constraint (UI):** If adding UI, use ONLY Tailwind utility classes.";
    js "  *   **Constraint (AI):** If adding AI features, use the pattern: `const ai = new GoogleGenAI({ apiKey: process.env.API_KEY });`.";
    [];
    js "  **Red Team the Plan:** Look for conflicts.";
    js "  *   Example: " ++ DQ ++ js "Does this state change trigger a re-render loop in React 18?" ++ DQ;
    js "  *   Example: " ++ DQ ++ js "Are we importing a file that doesn't exist in the flat structure?" ++ DQ;
    [];
    js "  **Define Constraints:** Explicitly list variables/functions that MUST NOT be modified.";
    [];
    js "  **Output:** Append your findings to the `MISSION_LOG` under `## HAZARD REGISTRY (DO NOT TOUCH)` and `## IMPLEMENTATION PLAN`.";
    js "  " ].

Definition taskmasterInstruction : jsstring :=
  lines
  [ js "You are the Taskmaster. Your goal is to break down the implementation into a series of **sequential, manageable prompts** for the Vibe Agent.";
    [];
    js "  **Reasoning:**";
    js "  To prevent the coding agent from getting overloaded or producing lazy code, you must split the Mission into logical chunks (e.g., 2-3 steps).";
    [];
    js "  **Structure:**";
    js "  Separate each prompt chunk clearly with this separator:";
    js "  `=== PROMPT [Number]: [Short Title] ===`";
    [];
    js "  **Template for EACH Prompt Chunk:**";
    js "  1.  **Header:** 'Act as a surgical code editor. Environment: React 18+, ESM, Tailwind(CDN), HashRouter.'";
    js "  2.  **The Iron Rules (Must be included in EVERY chunk):**";
    js "      *   'CRITICAL: Use `@google/genai` only. Do not import `google-generative-ai`.'";
    js "      *   'CRITICAL: Do NOT create `.css` files. Use Tailwind classes.'";
    js "      *   'CRITICAL: Regenerate the FULL file content for the files being modified. No placeholders like `// ... rest of code`. The previewer will fail if you do this.'";
    js "      *   'CRITICAL: Maintain `export default` on main components.'";
    js "  3.  **The Task:** " ++ DQ ++ js "Step [N] of [Total]: [Description of what to build in this step]." ++ DQ;
    js "  4.  **Context:**";
    js "      *   Include the raw code of *only* the files needed for this specific step (from Repository Content).";
    js "      *   Include the relevant pseudo-code from the Mission Log.";
    js "  5.  **Constraints:** " ++ DQ ++ js "Ensure you respect the Hazard Registry: [Relevant items]." ++ DQ;
    [];
    js "  **Output Rules:**";
    js "  *   Do NOT output markdown code blocks for the prompt text itself.";
    js "  *   Just output the raw text separated by the headers.";
    js "  " ].

Definition refinerInstruction : jsstring :=
  lines
  [ js "You are the Repair Technician. You have a set of coding instructions (Prompts) generated for the Vibe Agent. The user has reported an error or requested a change.";
    [];
    js "  **Your Job:** ";
    js "  Modify the existing prompts or ADD a new prompt to fix the issue described by the user.";
    [];
    js "  **Rules:**";
    js "  1.  **Analyze:** Look at the 'Current Prompts' and the 'User Feedback'. Determine if a specific step caused the error or if a new step is needed.";
    js "  2.  **Edit vs Add:**";
    js "      *   If an existing step is wrong (e.g., syntax error, missing import), REWRITE that specific prompt chunk. Keep the same ID/Title if possible.";
    js "      *   If something was missed entirely, ADD a new chunk at the end (increment the ID).";
    js "  3.  **Preserve Structure:** You MUST return the **FULL set of prompts** (including the ones you didn't change). Maintain the separator: `=== PROMPT [Number]: [Title] ===`.";
    js "  4.  **Iron Rules:** Ensure any new or edited code instructions still follow the Vibe Environment rules (React 18+, No CSS files, @google/genai only).";
    [];
    js "  **Output:**";
    js "  Return the raw text of the updated prompt sequence.";
    js "  " ].

Definition scoutPrompt (objective errorFeedback fileContext : jsstring)
    : jsstring :=
  lines
  [ [];
    js "  MISSION OBJECTIVE:";
    js "  " ]
  ++ objective
  ++ lines
  [ [];
    [];
    js "  ERROR FEEDBACK (Issues to fix):";
    js "  " ]
  ++ or_else errorFeedback (js "None")
  ++ lines
  [ [];
    js "  ";
    js "  REPOSITORY CONTENT:";
    js "  " ]
  ++ fileContext
  ++ lines
  [ [];
    js "  " ].

Definition architectPrompt
    (currentMissionLog objective errorFeedback : jsstring) : jsstring :=
  lines
  [ [];
    js "  ORIGINAL OBJECTIVE:";
    js "  " ]
  ++ objective
  ++ lines
  [ [];
    [];
    js "  ERROR FEEDBACK:";
    js "  " ]
  ++ or_else errorFeedback (js "None")
  ++ lines
  [ [];
    [];
    js "  CURRENT MISSION LOG:";
    js "  " ]
  ++ currentMissionLog
  ++ lines
  [ [];
    js "  " ].

Definition taskmasterPrompt (fullMissionLog fileContext : jsstring)
    : jsstring :=
  lines
  [ [];
    js "  FULL MISSION LOG:";
    js "  " ]
  ++ fullMissionLog
  ++ lines
  [ [];
    js "  ";
    js "  REPOSITORY CONTENT (Reference for file contents):";
    js "  " ]
  ++ fileContext
  ++ lines
  [ [];
    js "  " ].

Definition refinerPrompt
    (currentPrompts feedback fullMissionLog fileContext : jsstring)
    : jsstring :=
  lines
  [ [];
    js "  CONTEXT - MISSION LOG:";
    js "  " ]
  ++ fullMissionLog
  ++ lines
  [ [];
    [];
    js "  CONTEXT - REPO FILES:";
    js "  " ]
  ++ fileContext
  ++ lines
  [ [];
    [];
    js "  === CURRENT PROMPTS (To be fixed) ===";
    js "  " ]
  ++ currentPrompts
  ++ lines
  [ [];
    [];
    js "  === USER FEEDBACK / ERROR REPORT ===";
    js "  " ]
  ++ feedback
  ++ lines
  [ [];
    js "  " ].

(** [images.forEach(img => parts.push({ inlineData: ... }))] *)
Definition imageParts (images : list ImageRef) : list Part :=
  map (fun img => InlineData (Controller.mimeType img) (Controller.data img))
      images.

(** [response.text || placeholder]: an absent and an empty text are
    replaced. *)
Definition text_or (t : option jsstring) (placeholder : jsstring)
    : jsstring :=
  match t with
  | Some s => or_else s placeholder
  | None => placeholder
  end.

Section Agents.
(** The model: [ai.models.generateContent(request)] resolves with a
    response, of which [text] is read, or rejects. *)
Variable generateContent : Request -> Exc (option jsstring).

(** How each of the four agents ends:
    [try { return (await generateContent(request)).text || placeholder }
     catch (error) { throw new Error(failure) }]
    (the error is logged to the console and otherwise dropped). *)
Definition ask (request : Request) (placeholder failure : jsstring)
    : Exc jsstring :=
  match generateContent request with
  | Return t => Return (text_or t placeholder)
  | Throw _ => Throw failure
  end.

Definition runScoutAgent (objective errorFeedback : jsstring)
    (files : list RepoFile) (images : list ImageRef) : Exc jsstring :=
  let fileContext := formatRepoForPrompt files in
  let textPrompt := scoutPrompt objective errorFeedback fileContext in
  let parts := TextPart textPrompt :: imageParts images in
  ask (mkRequest MODEL (Parts parts) scoutInstruction
                 (QArith_base.Qmake 2 10))
      (js "Error generating Scout response.")
      (js "Scout Agent failed to analyze repository.").

Definition runArchitectAgent
    (currentMissionLog objective errorFeedback : jsstring)
    (images : list ImageRef) : Exc jsstring :=
  let textPrompt :=
    architectPrompt currentMissionLog objective errorFeedback in
  let parts := TextPart textPrompt :: imageParts images in
  ask (mkRequest MODEL (Parts parts) architectInstruction
                 (QArith_base.Qmake 4 10))
      (js "Error generating Architect response.")
      (js "Architect Agent failed to plan.").

Definition runTaskmasterAgent (fullMissionLog : jsstring)
    (files : list RepoFile) : Exc jsstring :=
  let fileContext := formatRepoForPrompt files in
  let prompt := taskmasterPrompt fullMissionLog fileContext in
  ask (mkRequest MODEL (Plain prompt) taskmasterInstruction
                 (QArith_base.Qmake 3 10))
      (js "Error generating Taskmaster response.")
      (js "Taskmaster Agent failed to synthesize prompt.").

Definition runRefinerAgent
    (currentPrompts feedback fullMissionLog : jsstring)
    (files : list RepoFile) : Exc jsstring :=
  let fileContext := formatRepoForPrompt files in
  let prompt :=
    refinerPrompt currentPrompts feedback fullMissionLog fileContext in
  ask (mkRequest MODEL (Plain prompt) refinerInstruction
                 (QArith_base.Qmake 2 10))
      (js "Error generating Refiner response.")
      (js "Refiner Agent failed to fix instructions.").
End Agents.

(** The services as the application imports them: the fetcher on the
    network and the four agents on the model. *)
Definition services (net : jsstring -> Exc GitHub.Response)
    (generateContent : Request -> Exc (option jsstring))
    : Controller.Services :=
  Controller.liveServices net
    (runScoutAgent generateContent) (runArchitectAgent generateContent)
    (runTaskmasterAgent generateContent) (runRefinerAgent generateContent).

End Gemini.

(* ===================================================================== *)
(** ** Reference images (App.tsx) *)
(* ===================================================================== *)

Module Images.
Import JsString Regex.

Definition ImageRef := Controller.ImageRef.

Definition COMMA : codeunit := 44%N.
Definition COLON : codeunit := 58%N.
Definition SEMICOLON : codeunit := 59%N.

(** [/:(.*?);/] *)
Definition mime_regex : regex :=
  Cat (Chr COLON) (Cat (Grp 1 (Rep false 0 Parser.is_dot)) (Chr SEMICOLON)).

(** What [reader.onloadend] does with the data URL it has read: it
    resolves with the text after the first comma (absent when there is
    no comma) and the type found in the header, or it throws, when the
    header holds no type, and the promise stays pending. *)
Inductive Loaded : Type :=
| Resolved (data : option jsstring) (mimeType : jsstring)
| Uncaught.

Definition onloadend (result : jsstring) : Loaded :=
  let parts := split COMMA result in
  let header := nth 0 parts [] in
  let base64 := nth_error parts 1 in
  match Search.exec mime_regex header with
  | Some m => Resolved base64 (Parser.group 1 m)
  | None => Uncaught
  end.

(** The [src] of a thumbnail: [`data:${img.mimeType};base64,${img.data}`]. *)
Definition src (img : ImageRef) : jsstring :=
  js "data:" ++ Controller.mimeType img ++ js ";base64,"
    ++ Controller.data img.

(** [prev => [...prev, ...processedImages]] *)
Definition addImages (processedImages prev : list ImageRef)
    : list ImageRef :=
  prev ++ processedImages.

(** [l.filter((x, i) => f x i)], counting from [i]. *)
Fixpoint filter_from {A : Type} (f : A -> nat -> bool) (i : nat)
    (l : list A) : list A :=
  match l with
  | [] => []
  | x :: l' =>
      if f x i then x :: filter_from f (S i) l' else filter_from f (S i) l'
  end.

(** [prev => prev.filter((_, i) => i !== index)] *)
Definition removeImage (index : nat) (prev : list ImageRef)
    : list ImageRef :=
  filter_from (fun _ i => negb (Nat.eqb i index)) 0 prev.

End Images.

(* ===================================================================== *)
(** ** What the display derives from the state *)
(* ===================================================================== *)

Module Display.
Import JsString Controller.

(** [a === b] on statuses. *)
Definition status_eqb (a b : AgentStatus) : bool :=
  match a, b with
  | IDLE, IDLE | FETCHING_REPO, FETCHING_REPO
  | SCOUT_WORKING, SCOUT_WORKING | ARCHITECT_WORKING, ARCHITECT_WORKING
  | TASKMASTER_WORKING, TASKMASTER_WORKING | REFINING, REFINING
  | COMPLETED, COMPLETED | ERROR, ERROR => true
  | _, _ => false
  end.

(** App.tsx: the flags of a render. *)
Definition isProcessing (s : AgentState) : bool :=
  negb (status_eqb (status s) IDLE)
  && negb (status_eqb (status s) COMPLETED)
  && negb (status_eqb (status s) ERROR).

Definition isRefining (s : AgentState) : bool :=
  status_eqb (status s) REFINING.

(** The [disabled] attribute of the Execute Pipeline button and of the
    Auto-Fix button. *)
Definition executeDisabled (a : App) : bool :=
  isProcessing (state a) || isRefining (state a)
  || falsy (repoUrl a) || falsy (objective a).

Definition refineDisabled (a : App) : bool :=
  isRefining (state a) || falsy (refinementInput a).

(** The three flags handed to an [AgentCard]. *)
Record CardProps : Type := mkCard {
  isActive : bool;
  isCompleted : bool;
  isPending : bool
}.

Definition scoutCard (st : AgentStatus) : CardProps :=
  mkCard
    (status_eqb st SCOUT_WORKING || status_eqb st FETCHING_REPO)
    (status_eqb st ARCHITECT_WORKING || status_eqb st TASKMASTER_WORKING
     || status_eqb st REFINING || status_eqb st COMPLETED)
    (status_eqb st IDLE).

Definition architectCard (st : AgentStatus) : CardProps :=
  mkCard
    (status_eqb st ARCHITECT_WORKING)
    (status_eqb st TASKMASTER_WORKING || status_eqb st REFINING
     || status_eqb st COMPLETED)
    (status_eqb st IDLE || status_eqb st FETCHING_REPO
     || status_eqb st SCOUT_WORKING).

Definition taskmasterCard (st : AgentStatus) : CardProps :=
  mkCard
    (status_eqb st TASKMASTER_WORKING)
    (status_eqb st REFINING || status_eqb st COMPLETED)
    (negb (status_eqb st TASKMASTER_WORKING)
     && negb (status_eqb st COMPLETED) && negb (status_eqb st REFINING)).

(** AgentCard.tsx: how many of its three icons (spinner, check mark,
    circle) a card shows. *)
Definition icons (c : CardProps) : nat :=
  (if isActive c then 1 else 0) + (if isCompleted c then 1 else 0)
  + (if isPending c then 1 else 0).

(** [\w] *)
Definition is_word (c : codeunit) : bool :=
  ((N.leb 97 c && N.leb c 122) || (N.leb 65 c && N.leb c 90)
   || (N.leb 48 c && N.leb c 57) || N.eqb c 95)%N.

(** [/language-(\w+)/] *)
Definition language_regex : Regex.regex :=
  Regex.Cat (Regex.lit (js "language-"))
            (Regex.Grp 1 (Regex.Rep true 1 is_word)).

(** MarkdownRenderer.tsx: whether a [code] element is rendered inline,
    [!match && !className] with
    [match = /language-(\w+)/.exec(className || '')]. *)
Definition isInline (className : option jsstring) : bool :=
  let subject :=
    match className with
    | Some s => or_else s []
    | None => []
    end in
  let found :=
    match Search.exec language_regex subject with
    | Some _ => true
    | None => false
    end in
  negb found && falsy_opt className.

End Display.

(* ===================================================================== *)
(** ** Notions of the specification *)
(* ===================================================================== *)

Module Delimiter.
Import JsString Parser.

(** A delimiter has the shape [=== PROMPT <number>: <title> ===]: the
    number is a non-empty run of digits, the title stays on one line. *)
Definition shaped (d : jsstring) : Prop :=
  exists number title,
    d = js "=== PROMPT " ++ number ++ js ": " ++ title ++ js " ==="
    /\ number <> []
    /\ forallb is_digit number = true
    /\ forallb is_dot title = true.

(** The text contains a delimiter somewhere. *)
Definition occurs (text : jsstring) : Prop :=
  exists before d after, text = before ++ d ++ after /\ shaped d.

(** The same, decided by scanning the text. *)
Fixpoint span (p : codeunit -> bool) (s : jsstring) : jsstring * jsstring :=
  match s with
  | c :: s' =>
      if p c then let '(a, b) := span p s' in (c :: a, b) else ([], s)
  | [] => ([], [])
  end.

(** Some title, then the closing [ ===], before the line ends. *)
Fixpoint closes (s : jsstring) : bool :=
  startsWith s (js " ===") ||
  match s with
  | c :: s' => is_dot c && closes s'
  | [] => false
  end.

Definition starts (s : jsstring) : bool :=
  match strip_prefix (js "=== PROMPT ") s with
  | Some s1 =>
      let '(number, s2) := span is_digit s1 in
      negb (falsy number) &&
      match strip_prefix (js ": ") s2 with
      | Some s3 => closes s3
      | None => false
      end
  | None => false
  end.

Fixpoint has_delimiter (text : jsstring) : bool :=
  starts text ||
  match text with
  | _ :: text' => has_delimiter text'
  | [] => false
  end.

End Delimiter.

Module GitHubSpec.
Import JsString GitHub.

(** The locator has recognizable owner and repository segments: it ends
    in [owner/repo], with or without one trailing slash, where both
    segments are non-empty and free of [/], and [owner] starts the
    locator or follows a [/]. *)
Definition names_repository (url : jsstring) : Prop :=
  exists before owner repo,
    (before = [] \/ exists base, before = base ++ js "/")
    /\ owner <> [] /\ ~ In SLASH owner
    /\ repo <> [] /\ ~ In SLASH repo
    /\ (url = before ++ owner ++ js "/" ++ repo
        \/ url = before ++ owner ++ js "/" ++ repo ++ js "/").

(** The hosting API returns the tree listing [data] for [owner]/[repo]:
    for the branch [main], or for [master] after a 404 for [main]. *)
Definition serves (net : jsstring -> Exc Response) (owner repo : jsstring)
    (data : TreeData) : Prop :=
  exists r,
    ok r = true /\ json r = Return data /\
    (net (treeUrl owner repo (js "main")) = Return r
     \/ exists r0,
          net (treeUrl owner repo (js "main")) = Return r0
          /\ ok r0 = false /\ status r0 = 404%N
          /\ net (treeUrl owner repo (js "master")) = Return r).

(** The order the sort aims at: a manifest before anything else, and
    apart from manifests a shallower path before a deeper one. *)
Definition priority (a b : GitHubTreeItem) : Prop :=
  is_manifest (item_path a) = true
  \/ (is_manifest (item_path b) = false
      /\ depth (item_path a) <= depth (item_path b)).

(** [l1] is [l2] with some elements left out. *)
Inductive Subseq {A : Type} : list A -> list A -> Prop :=
| Subseq_nil : Subseq [] []
| Subseq_skip x l1 l2 : Subseq l1 l2 -> Subseq l1 (x :: l2)
| Subseq_keep x l1 l2 : Subseq l1 l2 -> Subseq (x :: l1) (x :: l2).

(** The path carries an allowed extension and no excluded substring. *)
Definition allowed (p : jsstring) : Prop :=
  (exists ext, In ext codeExtensions /\ endsWith p ext = true)
  /\ includes p (js "lock") = false
  /\ includes p (js "node_modules") = false
  /\ includes p (js "dist/") = false
  /\ includes p (js "build/") = false.

End GitHubSpec.

Module ControllerSpec.
Import JsString Controller.

(** The calls among the events, in order. *)
Fixpoint calls (evs : list Event) : list Call :=
  match evs with
  | [] => []
  | Called c :: evs' => c :: calls evs'
  | Committed _ :: evs' => calls evs'
  end.

(** The hooks with another agent state, retained file list or feedback
    input. *)
Definition with_state (s : AgentState) (a : App) : App :=
  mkApp (repoUrl a) (objective a) (errorFeedback a) (referenceImages a)
        (refinementInput a) s (repoFilesRef a).

Definition with_files (files : list RepoFile) (a : App) : App :=
  mkApp (repoUrl a) (objective a) (errorFeedback a) (referenceImages a)
        (refinementInput a) (state a) files.

Definition with_feedback (v : jsstring) (a : App) : App :=
  mkApp (repoUrl a) (objective a) (errorFeedback a) (referenceImages a)
        v (state a) (repoFilesRef a).

Definition PIPELINE_ERROR : jsstring :=
  js "An unexpected error occurred in the pipeline.".

Definition REFINE_ERROR : jsstring :=
  js "Failed to refine instructions.".

End ControllerSpec.

Module Chunks.
Import JsString Parser.

(** The opening of a delimiter, which the lookahead of the pattern
    watches for. *)
Definition MARKER : jsstring := js "=== PROMPT".

(** How many times [w] occurs in [s], overlaps included. *)
Fixpoint occurrences (w s : jsstring) : nat :=
  (if startsWith s w then 1 else 0)
  + match s with
    | _ :: s' => occurrences w s'
    | [] => 0
    end.

(** The answer of [parsePrompts] when the pattern matches nowhere. *)
Definition fallback (text : jsstring) : list ParsedPrompt :=
  [mkPrompt (js "1") (js "Complete Mission") text].

(** Neither end of [s] is white space. *)
Definition trimmed (s : jsstring) : bool :=
  match s with
  | c :: _ => negb (is_space c)
  | [] => true
  end
  && match rev s with
     | c :: _ => negb (is_space c)
     | [] => true
     end.

(** Where the lookahead [(?=(=== PROMPT|\z))] succeeds. *)
Definition look (s : jsstring) : bool :=
  startsWith s MARKER
  || match s with
     | c :: _ => N.eqb c LOWER_Z
     | [] => false
     end.

(** The shape of a chunk that stems from a match. *)
Definition well_formed (c : ParsedPrompt) : Prop :=
  id c <> [] /\ forallb is_digit (id c) = true
  /\ forallb is_dot (title c) = true
  /\ trimmed (content c) = true.

(** The content holds nothing the lookahead watches for. *)
Definition unmarked (c : ParsedPrompt) : Prop :=
  includes (content c) (js "z") = false
  /\ includes (content c) MARKER = false.

End Chunks.

Module Requests.
Import JsString GitHub.

(** The branch the raw-content URLs are built on: a guess from the
    listing's own URL. *)
Definition branch_of (data : TreeData) : jsstring :=
  if includes (data_url data) (js "master") then js "master" else js "main".

(** The raw-content URLs of some entries, in their order. *)
Definition rawUrls (owner repo : jsstring) (data : TreeData)
    (items : list GitHubTreeItem) : list jsstring :=
  map (fun item => rawUrl owner repo (branch_of data) (item_path item)) items.

(** The file [f] is what the network served for the entry [item]. *)
Definition served (net : jsstring -> Exc Response) (owner repo : jsstring)
    (data : TreeData) (item : GitHubTreeItem) (f : RepoFile) : Prop :=
  exists resp,
    net (rawUrl owner repo (branch_of data) (item_path item)) = Return resp
    /\ ok resp = true
    /\ text resp = Return (content f)
    /\ path f = item_path item
    /\ size f = size_or (item_size item) (content f).

(** The message thrown for a tree response that is not [ok]. *)
Definition failure (r : Response) : jsstring :=
  js "Failed to fetch repo tree: " ++ statusText r
    ++ js ". Ensure repo is public.".

End Requests.

Module Runs.
Import JsString Controller Display.

(** A committed state in which the display is processing. *)
Definition busy (e : Event) : Prop :=
  match e with
  | Committed s => isProcessing s = true
  | Called _ => True
  end.

(** The events a handler has added to those of the world it ran on. *)
Definition added (before after : World) : list Event :=
  skipn (List.length (snd before)) (snd after).

(** How a run ends: completed with a final prompt, or in error
    without. *)
Definition settled (s : AgentState) : Prop :=
  (status s = COMPLETED /\ finalPrompt s <> None /\ error s = None)
  \/ (status s = ERROR /\ finalPrompt s = None /\ error s <> None).

(** The messages the agents throw. *)
Definition SCOUT_FAILED : jsstring :=
  js "Scout Agent failed to analyze repository.".
Definition ARCHITECT_FAILED : jsstring := js "Architect Agent failed to plan.".
Definition TASKMASTER_FAILED : jsstring :=
  js "Taskmaster Agent failed to synthesize prompt.".
Definition REFINER_FAILED : jsstring :=
  js "Refiner Agent failed to fix instructions.".

(** An agent's answer: a text that is not empty, or its own failure. *)
Definition answers (r : Exc jsstring) (failure : jsstring) : Prop :=
  (exists t, r = Return t /\ t <> []) \/ r = Throw failure.

(** A final prompt, when there is one, is not the empty text. *)
Definition prompt_ok (s : AgentState) : Prop :=
  match finalPrompt s with
  | Some p => p <> []
  | None => True
  end.

End Runs.

Module ImageTypes.
Import JsString Images.

(** A type that can stand in the header of a data URL: one line, without
    semicolon or comma. *)
Definition plain_type (m : jsstring) : bool :=
  forallb (fun c => Parser.is_dot c && negb (N.eqb c SEMICOLON)
                    && negb (N.eqb c COMMA)) m.

(** Data that [split(',')] leaves in one piece. *)
Definition comma_free (d : jsstring) : bool :=
  forallb (fun c => negb (N.eqb c COMMA)) d.

End ImageTypes.

(* ===================================================================== *)
(** ** Sample inputs *)
(* ===================================================================== *)

Module Samples.
Import JsString.

(** The scenario text of the specification. *)
Definition scenario : jsstring :=
  js "=== PROMPT 1: Setup ===" ++ [LF] ++ js "Do X" ++ [LF]
  ++ js "=== PROMPT 2: Build ===" ++ [LF] ++ js "Do Y" ++ [LF].

(** A text with one well-formed delimiter line. *)
Definition single : jsstring :=
  js "=== PROMPT 7: Only ===" ++ [LF] ++ js "Do X" ++ [LF].

(** A small repository behind a network that serves its tree for the
    branch [main] and every file but the README. *)
Definition sample_url : jsstring := js "https://github.com/acme/demo/".

Definition entry (p : string) (t : GitHub.ItemType) : GitHub.GitHubTreeItem :=
  GitHub.mkItem (js p) (js "100644") t (js "0f3a") None (js p).

Definition sample_data : GitHub.TreeData :=
  GitHub.mkTreeData
    (js "https://api.github.com/repos/acme/demo/git/trees/9c1e")
    [ entry "components/AgentCard.tsx" GitHub.blob;
      entry "components" GitHub.tree;
      entry "README.md" GitHub.blob;
      entry "package-lock.json" GitHub.blob;
      entry "logo.png" GitHub.blob;
      entry "App.tsx" GitHub.blob;
      entry "node_modules/react/index.js" GitHub.blob;
      entry "package.json" GitHub.blob ].

Definition sample_net (url : jsstring) : Exc GitHub.Response :=
  if eqb url (GitHub.treeUrl (js "acme") (js "demo") (js "main")) then
    Return (GitHub.mkResponse true 200 (js "OK") (Return sample_data)
                              (Throw (js "body is not text")))
  else if endsWith url (js "README.md") then
    Return (GitHub.mkResponse false 404 (js "Not Found")
                              (Throw (js "no body")) (Return (js "404")))
  else if startsWith url (js "https://raw.githubusercontent.com/") then
    Return (GitHub.mkResponse true 200 (js "OK")
                              (Throw (js "body is not JSON"))
                              (Return (js "export {}")))
  else Throw (js "Failed to fetch").

(** Services that all succeed, and services whose Architect fails. *)
Definition sample_files : list Controller.RepoFile :=
  [GitHub.mkRepoFile (js "package.json") (js "{}") 2].

Definition steady : Controller.Services :=
  {| Controller.fetchRepoContents := fun _ => Return sample_files;
     Controller.runScoutAgent := fun _ _ _ _ => Return (js "scouted");
     Controller.runArchitectAgent := fun _ _ _ _ => Return (js "planned");
     Controller.runTaskmasterAgent := fun _ _ => Return scenario;
     Controller.runRefinerAgent := fun _ _ _ _ => Return single |}.

Definition faulty : Controller.Services :=
  {| Controller.fetchRepoContents := fun _ => Return sample_files;
     Controller.runScoutAgent := fun _ _ _ _ => Return (js "scouted");
     Controller.runArchitectAgent :=
       fun _ _ _ _ => Throw (js "Architect Agent failed to plan.");
     Controller.runTaskmasterAgent := fun _ _ => Return scenario;
     Controller.runRefinerAgent :=
       fun _ _ _ _ => Throw (js "Refiner Agent failed to fix instructions.") |}.

(** The application with both inputs filled in, before any run. *)
Definition ready : Controller.World :=
  (Controller.mkApp sample_url (js "Add a dark mode") [] [] []
     (Controller.mkAgentState Controller.IDLE
        Controller.INITIAL_MISSION_LOG None None) [],
   []).

(** The application after a completed run, with feedback typed in. *)
Definition completed : Controller.World :=
  (Controller.mkApp sample_url (js "Add a dark mode") [] []
     (js "Step 2 fails to build")
     (Controller.mkAgentState Controller.COMPLETED (js "planned")
        (Some scenario) None) sample_files,
   []).

End Samples.

Module MoreSamples.
Import JsString.

(** A network that refuses every request. *)
Definition forbidden : GitHub.Response :=
  GitHub.mkResponse false 403 (js "rate limit exceeded")
                    (Throw (js "no body")) (Throw (js "no body")).

Definition forbidden_net (url : jsstring) : Exc GitHub.Response :=
  Return forbidden.

(** A model that answers every request with the same two steps. *)
Definition echo_model (request : Gemini.Request) : Exc (option jsstring) :=
  Return (Some Samples.scenario).

(** An attached image. *)
Definition png : Controller.ImageRef :=
  Controller.mkImageRef (js "iVBORw0KGgo=") (js "image/png").

End MoreSamples.

(* ===================================================================== *)
(** ** Facts about strings and the matcher *)
(* ===================================================================== *)

Module JsStringFacts.
Import JsString.

Lemma strip_prefix_app (w s s' : jsstring) :
  strip_prefix w s = Some s' <-> s = w ++ s'.
Proof.
  revert s; induction w as [|c w IH]; intros s; simpl.
  - split; intros H; [injection H as ->; reflexivity | now subst].
  - destruct s as [|x s]; [split; intros H; discriminate|].
    destruct (N.eqb_spec x c) as [->|Hne].
    + rewrite IH. split; intros H; [now subst | now injection H].
    + split; intros H; [discriminate | injection H as H _; contradiction].
Qed.

Lemma startsWith_app (s w : jsstring) :
  startsWith s w = true <-> exists s', s = w ++ s'.
Proof.
  unfold startsWith.
  destruct (strip_prefix w s) as [s'|] eqn:E.
  - apply strip_prefix_app in E. split; eauto.
  - split; [discriminate|]. intros [s' H].
    apply strip_prefix_app in H. congruence.
Qed.

Lemma endsWith_app (s w : jsstring) :
  endsWith s w = true <-> exists s', s = s' ++ w.
Proof.
  unfold endsWith. rewrite startsWith_app. split; intros [s' H].
  - exists (rev s'). rewrite <- (rev_involutive s), H, rev_app_distr.
    now rewrite rev_involutive.
  - exists (rev s'). subst s. apply rev_app_distr.
Qed.

Lemma includes_app (s w : jsstring) :
  includes s w = true <-> exists a b, s = a ++ w ++ b.
Proof.
  induction s as [|x s IH]; simpl.
  - rewrite orb_false_r, startsWith_app. split.
    + intros [b H]. now exists [], b.
    + intros [a [b H]]. destruct a; simpl in H; [eauto | discriminate].
  - rewrite orb_true_iff, IH, startsWith_app. split.
    + intros [[b H] | [a [b H]]].
      * now exists [], b.
      * exists (x :: a), b. now rewrite H.
    + intros [a [b H]]. destruct a as [|y a]; simpl in H.
      * left; eauto.
      * right. injection H as _ H. eauto.
Qed.

Lemma trimStart_clean (s : jsstring) :
  match trimStart s with
  | c :: _ => is_space c = false
  | [] => True
  end.
Proof.
  induction s as [|c s IH]; simpl; [exact I|].
  destruct (is_space c) eqn:E; [exact IH | exact E].
Qed.

Lemma split_nonempty (sep : codeunit) (s : jsstring) :
  split sep s <> [].
Proof.
  destruct s as [|x s]; simpl; [discriminate|].
  destruct (N.eqb x sep); [discriminate|].
  destruct (split sep s); discriminate.
Qed.

(** A string splits into a single part exactly when the separator does
    not occur in it. *)
Lemma split_single (sep : codeunit) (s : jsstring) :
  List.length (split sep s) = 1 <-> ~ In sep s.
Proof.
  induction s as [|x s IH]; simpl.
  - split; [intros _ []| reflexivity].
  - destruct (N.eqb_spec x sep) as [->|Hne].
    + simpl. split; [intros H | intros H; exfalso; auto].
      pose proof (split_nonempty sep s) as Hs.
      destruct (split sep s); [contradiction | discriminate].
    + pose proof (split_nonempty sep s) as Hs.
      destruct (split sep s) as [|p ps]; [contradiction|].
      simpl in *. rewrite IH. split; intros H; [intros [E|E]; auto|auto].
Qed.

Lemma split_app (sep : codeunit) (a b : jsstring) :
  split sep (a ++ sep :: b) = split sep a ++ split sep b.
Proof.
  induction a as [|x a IH]; cbn [app split].
  - now rewrite N.eqb_refl.
  - destruct (N.eqb x sep); [now rewrite IH|].
    rewrite IH. pose proof (split_nonempty sep a) as Hne.
    destruct (split sep a); [contradiction | reflexivity].
Qed.

Lemma split_whole (sep : codeunit) (s : jsstring) :
  ~ In sep s -> split sep s = [s].
Proof.
  induction s as [|x s IH]; cbn [split]; intros H; [reflexivity|].
  destruct (N.eqb_spec x sep) as [->|Hne]; [exfalso; apply H; now left|].
  rewrite IH; [reflexivity|]. intros Hin. apply H. now right.
Qed.

Lemma replace_trailing_slash_keeps (a r : jsstring) :
  r <> [] -> ~ In SLASH r -> replace_trailing_slash (a ++ r) = a ++ r.
Proof.
  intros Hne Hin. unfold replace_trailing_slash.
  rewrite rev_app_distr.
  destruct (rev r) as [|c t] eqn:E.
  - apply (f_equal (@rev _)) in E. rewrite rev_involutive in E.
    contradiction.
  - cbn [app]. destruct (N.eqb_spec c SLASH) as [->|_]; [|reflexivity].
    exfalso. apply Hin. apply in_rev. rewrite E. now left.
Qed.

Lemma replace_trailing_slash_drops (s : jsstring) :
  replace_trailing_slash (s ++ [SLASH]) = s.
Proof.
  unfold replace_trailing_slash. rewrite rev_app_distr. cbn [rev app].
  rewrite N.eqb_refl. apply rev_involutive.
Qed.

End JsStringFacts.

Module RegexFacts.
Import JsString Regex JsStringFacts.

Lemma run_lit (w s : jsstring) (c : captures) (k : continuation) :
  run (lit w) s c k =
  match strip_prefix w s with
  | Some s' => k s' c
  | None => None
  end.
Proof.
  revert s; induction w as [|ch w IH]; intros s; simpl; [reflexivity|].
  destruct s as [|x s]; [reflexivity|].
  destruct (N.eqb x ch); [apply IH | reflexivity].
Qed.

(** Whatever a quantifier consumes satisfies its class, and is at least
    [min] long. *)
Lemma rep_some (g : bool) (p : codeunit -> bool) (min : nat) (s : jsstring)
    (k : jsstring -> result) (r : jsstring * captures) :
  rep g p min s k = Some r ->
  exists pre s', s = pre ++ s' /\ forallb p pre = true
                 /\ min <= List.length pre /\ k s' = Some r.
Proof.
  revert min; induction s as [|x s IH]; intros min H.
  - destruct min as [|n]; simpl in H; [|discriminate].
    assert (Hk : k [] = Some r).
    { destruct g; [exact H|]. destruct (k []); [exact H | discriminate]. }
    exists [], []. repeat split; auto.
  - destruct min as [|n]; simpl in H.
    + assert (Hcases : k (x :: s) = Some r
                       \/ (p x = true /\ rep g p 0 s k = Some r)).
      { destruct g.
        - destruct (p x); [|now left].
          destruct (rep true p 0 s k) as [r'|] eqn:E; [right|now left].
          split; [reflexivity | exact H].
        - destruct (k (x :: s)) as [r'|]; [now left|].
          destruct (p x); [now right | discriminate]. }
      destruct Hcases as [Hk | [Hp Hr]].
      * exists [], (x :: s). repeat split; auto.
      * destruct (IH 0 Hr) as [pre [s' [-> [Hall [_ Hk]]]]].
        exists (x :: pre), s'. simpl. rewrite Hp.
        repeat split; auto. lia.
    + destruct (p x) eqn:Hp; [|discriminate].
      destruct (IH n H) as [pre [s' [-> [Hall [Hlen Hk]]]]].
      exists (x :: pre), s'. simpl. rewrite Hp.
      repeat split; auto. lia.
Qed.

Lemma matchAll_none (r : regex) (s : jsstring) :
  (forall a b, s = a ++ b -> exec_at r b = None) ->
  forall skip, matchAll_from r skip s = [].
Proof.
  induction s as [|x s IH]; intros H skip.
  - destruct skip; simpl; [|reflexivity].
    now rewrite (H [] [] eq_refl).
  - assert (Hs : forall a b, s = a ++ b -> exec_at r b = None).
    { intros a b ->. apply (H (x :: a)). reflexivity. }
    destruct skip; simpl.
    + rewrite (H [] (x :: s) eq_refl). now apply IH.
    + now apply IH.
Qed.

End RegexFacts.

(* ===================================================================== *)
(** ** The parser *)
(* ===================================================================== *)

Module ParserFacts.
Import JsString Regex Parser Delimiter Samples JsStringFacts RegexFacts.

Lemma span_spec (p : codeunit -> bool) (s a b : jsstring) :
  span p s = (a, b) -> s = a ++ b /\ forallb p a = true.
Proof.
  revert a b; induction s as [|c s IH]; intros a b; simpl.
  - intros H; injection H as <- <-. now split.
  - destruct (p c) eqn:Hp.
    + destruct (span p s) as [a' b'].
      intros H; injection H as <- <-.
      destruct (IH a' b' eq_refl) as [-> Hall]. simpl. now rewrite Hp.
    + intros H; injection H as <- <-. now split.
Qed.

Lemma span_app (p : codeunit -> bool) (a : jsstring) (x : codeunit)
    (b : jsstring) :
  forallb p a = true -> p x = false -> span p (a ++ x :: b) = (a, x :: b).
Proof.
  intros Ha Hx; induction a as [|c a IH]; simpl.
  - now rewrite Hx.
  - simpl in Ha. apply andb_true_iff in Ha as [Hc Ha].
    now rewrite Hc, (IH Ha).
Qed.

Lemma closes_iff (s : jsstring) :
  closes s = true <->
  exists title rest,
    s = title ++ js " ===" ++ rest /\ forallb is_dot title = true.
Proof.
  induction s as [|c s IH].
  - simpl. split; [discriminate|].
    intros (t & r & H & _). destruct t; discriminate.
  - cbn [closes]. rewrite orb_true_iff, andb_true_iff, IH, startsWith_app.
    split.
    + intros [[r H] | [Hc (t & r & -> & Ht)]].
      * exists [], r. now split.
      * exists (c :: t), r. simpl. now rewrite Hc.
    + intros (t & r & H & Ht). destruct t as [|c' t].
      * left. now exists r.
      * right. simpl in H, Ht. injection H as -> ->.
        apply andb_true_iff in Ht as [Hc Ht]. split; [exact Hc|].
        now exists t, r.
Qed.

(** [starts] decides that a delimiter stands at the front of [s]. *)
Lemma starts_iff (s : jsstring) :
  starts s = true <->
  exists number title rest,
    s = js "=== PROMPT " ++ number ++ js ": " ++ title ++ js " ===" ++ rest
    /\ number <> []
    /\ forallb is_digit number = true
    /\ forallb is_dot title = true.
Proof.
  unfold starts. split.
  - destruct (strip_prefix (js "=== PROMPT ") s) as [s1|] eqn:E1;
      [|discriminate].
    apply strip_prefix_app in E1.
    destruct (span is_digit s1) as [number s2] eqn:E2.
    apply span_spec in E2 as [-> Hnum].
    rewrite andb_true_iff. intros [Hne H].
    destruct (strip_prefix (js ": ") s2) as [s3|] eqn:E3; [|discriminate].
    apply strip_prefix_app in E3.
    apply closes_iff in H as (title & rest & -> & Ht).
    exists number, title, rest. subst. repeat split; auto.
    intros ->. discriminate.
  - intros (number & title & rest & -> & Hne & Hnum & Ht).
    assert (E1 : strip_prefix (js "=== PROMPT ")
                   (js "=== PROMPT " ++ number ++ js ": " ++ title
                      ++ js " ===" ++ rest)
                 = Some (number ++ js ": " ++ title ++ js " ===" ++ rest))
      by now apply strip_prefix_app.
    rewrite E1.
    change (js ": " ++ title ++ js " ===" ++ rest)
      with (58%N :: (32%N :: title ++ js " ===" ++ rest)).
    rewrite span_app by (auto; reflexivity).
    destruct number; [contradiction|]. simpl.
    apply closes_iff. now exists title, rest.
Qed.

Lemma shape_assoc (n t r : jsstring) :
  js "=== PROMPT " ++ n ++ js ": " ++ t ++ js " ===" ++ r
  = (js "=== PROMPT " ++ n ++ js ": " ++ t ++ js " ===") ++ r.
Proof. now rewrite <- !app_assoc. Qed.

(** [has_delimiter] decides [occurs]. *)
Lemma has_delimiter_iff (text : jsstring) :
  has_delimiter text = true <-> occurs text.
Proof.
  unfold occurs, shaped. induction text as [|x text IH].
  - cbn [has_delimiter]. rewrite orb_false_r, starts_iff. split.
    + intros (n & t & r & H & _). discriminate H.
    + intros (b & d & a & H & n & t & -> & Hrest).
      destruct b; discriminate.
  - cbn [has_delimiter]. rewrite orb_true_iff, IH, starts_iff. split.
    + intros [(n & t & r & H & Hn & Hd & Ht) | (b & d & a & -> & Hs)].
      * exists [], (js "=== PROMPT " ++ n ++ js ": " ++ t ++ js " ==="), r.
        split; [|now exists n, t].
        rewrite H. exact (shape_assoc n t r).
      * now exists (x :: b), d, a.
    + intros (b & d & a & H & n & t & -> & Hn & Hd & Ht).
      destruct b as [|y b].
      * left. exists n, t, a. repeat split; auto.
        rewrite H. symmetry. exact (shape_assoc n t a).
      * right. simpl in H. injection H as _ ->.
        exists b, (js "=== PROMPT " ++ n ++ js ": " ++ t ++ js " ==="), a.
        split; [reflexivity | now exists n, t].
Qed.

(** The pattern only matches where a delimiter stands. *)
Lemma exec_at_starts (s : jsstring) (m : captures * nat) :
  exec_at regex s = Some m -> starts s = true.
Proof.
  unfold exec_at.
  destruct (run regex s [] (fun s1 c1 => Some (s1, c1))) as [res|] eqn:H;
    [intros _ | discriminate].
  apply starts_iff.
  unfold regex in H. cbn [run] in H. rewrite run_lit in H.
  destruct (strip_prefix (js "=== PROMPT ") s) as [s1|] eqn:E1;
    [|discriminate].
  apply strip_prefix_app in E1.
  apply rep_some in H as (number & s2 & -> & Hnum & Hlen & H).
  rewrite run_lit in H.
  destruct (strip_prefix (js ": ") s2) as [s3|] eqn:E3; [|discriminate].
  apply strip_prefix_app in E3.
  apply rep_some in H as (title & s4 & -> & Ht & _ & H).
  rewrite run_lit in H.
  destruct (strip_prefix (js " ===") s4) as [s5|] eqn:E5; [|discriminate].
  apply strip_prefix_app in E5.
  exists number, title, s5. subst. repeat split; auto.
  intros ->. simpl in Hlen. lia.
Qed.

Lemma has_delimiter_suffix (a b : jsstring) :
  has_delimiter (a ++ b) = false -> starts b = false.
Proof.
  induction a as [|x a IH]; cbn [app has_delimiter].
  - destruct b; cbn [has_delimiter]; intros H;
      apply orb_false_iff in H; tauto.
  - intros H. apply orb_false_iff in H as [_ H]. auto.
Qed.

(** C3. A text without any [=== PROMPT <number>: <title> ===] delimiter
    parses to exactly one chunk, with id ["1"], title
    ["Complete Mission"] and the entire text as its content. *)
Theorem parsePrompts_no_delimiter (text : jsstring) :
  has_delimiter text = false ->
  parsePrompts text = [mkPrompt (js "1") (js "Complete Mission") text].
Proof.
  intros H. unfold parsePrompts, matchAll.
  rewrite matchAll_none; [reflexivity|].
  intros a b ->.
  destruct (exec_at regex b) as [m|] eqn:E; [|reflexivity].
  apply exec_at_starts in E.
  apply has_delimiter_suffix in H. congruence.
Qed.

Lemma parsePrompts_no_delimiter_witness :
  has_delimiter (js "=== PROMPT one: Setup ===") = false
  /\ parsePrompts (js "=== PROMPT one: Setup ===")
     = [mkPrompt (js "1") (js "Complete Mission")
                 (js "=== PROMPT one: Setup ===")].
Proof.
  split; [reflexivity|].
  apply parsePrompts_no_delimiter. reflexivity.
Defined.

(** C2. On the scenario text, with its two delimiters, [parsePrompts]
    returns the first chunk only: after the second delimiter neither
    [=== PROMPT] nor a letter z follows, so the lookahead fails there and
    the chunk [{id:"2", title:"Build", content:"Do Y"}] is lost. *)
Theorem parsePrompts_scenario :
  parsePrompts scenario = [mkPrompt (js "1") (js "Setup") (js "Do X")]
  /\ parsePrompts scenario
     <> [mkPrompt (js "1") (js "Setup") (js "Do X");
         mkPrompt (js "2") (js "Build") (js "Do Y")].
Proof.
  assert (E : parsePrompts scenario
              = [mkPrompt (js "1") (js "Setup") (js "Do X")])
    by (vm_compute; reflexivity).
  split; [exact E|]. rewrite E. discriminate.
Qed.

(** C1. On a text with one well-formed delimiter line (N = 1) the
    pattern does not match at all, and [parsePrompts] answers with the
    fallback chunk: its id and title are not those of the delimiter, and
    its content is the untrimmed input, delimiter line included. *)
Theorem parsePrompts_single_delimiter :
  has_delimiter single = true
  /\ parsePrompts single
     = [mkPrompt (js "1") (js "Complete Mission") single]
  /\ parsePrompts single <> [mkPrompt (js "7") (js "Only") (js "Do X")].
Proof.
  assert (E : parsePrompts single
              = [mkPrompt (js "1") (js "Complete Mission") single])
    by (vm_compute; reflexivity).
  split; [reflexivity|]. split; [exact E|]. rewrite E. discriminate.
Qed.

(** The same pattern cuts a chunk short at the first letter z of its
    content. *)
Example parsePrompts_cut_at_z :
  parsePrompts (js "=== PROMPT 1: Layout ===" ++ [LF]
                ++ js "Resize the panel" ++ [LF]
                ++ js "=== PROMPT 2: Build ===" ++ [LF]
                ++ js "Do Y" ++ [LF])
  = [mkPrompt (js "1") (js "Layout") (js "Resi")].
Proof. vm_compute. reflexivity. Qed.

(** With a letter z after the last delimiter every delimiter yields a
    chunk. *)
Example parsePrompts_with_z :
  parsePrompts (scenario ++ js "z")
  = [mkPrompt (js "1") (js "Setup") (js "Do X");
     mkPrompt (js "2") (js "Build") (js "Do Y")].
Proof. vm_compute. reflexivity. Qed.

End ParserFacts.

(* ===================================================================== *)
(** ** The repository fetcher *)
(* ===================================================================== *)

Module GitHubFacts.
Import JsString JsStringFacts GitHub GitHubSpec.

Lemma includes_slash (s : jsstring) :
  includes s (js "/") = false <-> ~ In SLASH s.
Proof.
  induction s as [|x s IH]; cbn [includes].
  - split; [intros _ [] | reflexivity].
  - rewrite orb_false_iff, IH. unfold startsWith. cbn.
    destruct (N.eqb_spec x 47) as [->|Hne].
    + split; [intros [H _]; discriminate | intros H; exfalso; apply H; now left].
    + split; [intros [_ H] [E|E]; auto | intros H; split; auto].
Qed.

Lemma parseRepoUrl_none (url : jsstring) :
  parseRepoUrl url = None
  <-> includes (replace_trailing_slash url) (js "/") = false.
Proof.
  unfold parseRepoUrl. rewrite includes_slash, <- split_single.
  pose proof (split_nonempty SLASH (replace_trailing_slash url)) as Hne.
  destruct (split SLASH (replace_trailing_slash url)) as [|p [|q ps]];
    [contradiction| |]; simpl; split; intros H; try reflexivity;
    discriminate.
Qed.

(** *** Segments of a locator *)

Lemma parts_owner_repo (base owner repo : jsstring) :
  ~ In SLASH owner -> ~ In SLASH repo ->
  let parts := split SLASH (base ++ SLASH :: owner ++ SLASH :: repo) in
  Nat.ltb (List.length parts) 2 = false
  /\ nth (List.length parts - 1) parts [] = repo
  /\ nth (List.length parts - 2) parts [] = owner.
Proof.
  intros Ho Hr parts. subst parts.
  rewrite !split_app, (@split_whole SLASH owner Ho),
    (@split_whole SLASH repo Hr).
  rewrite !length_app. cbn [List.length].
  split; [apply Nat.ltb_ge; lia|]. split.
  - rewrite app_nth2 by lia.
    replace (_ - _ - _) with 1 by lia. reflexivity.
  - rewrite app_nth2 by lia.
    replace (_ - _ - _) with 0 by lia. reflexivity.
Qed.

Lemma parts_two (owner repo : jsstring) :
  ~ In SLASH owner -> ~ In SLASH repo ->
  split SLASH (owner ++ SLASH :: repo) = [owner; repo].
Proof.
  intros Ho Hr.
  now rewrite split_app, (@split_whole SLASH owner Ho),
    (@split_whole SLASH repo Hr).
Qed.

(** A locator with recognizable segments is taken apart into them. *)
Lemma names_repository_parsed (url : jsstring) :
  names_repository url ->
  exists owner repo,
    owner <> [] /\ repo <> [] /\ parseRepoUrl url = Some (owner, repo).
Proof.
  intros (before & owner & repo & Hb & Ho & Hso & Hr & Hsr & Hurl).
  exists owner, repo. split; [exact Ho|]. split; [exact Hr|].
  change (js "/") with [SLASH] in *. cbn [app] in Hurl.
  assert (Hparts :
            let parts := split SLASH (before ++ owner ++ SLASH :: repo) in
            Nat.ltb (List.length parts) 2 = false
            /\ nth (List.length parts - 1) parts [] = repo
            /\ nth (List.length parts - 2) parts [] = owner).
  { destruct Hb as [-> | (base & ->)].
    - cbn [app]. rewrite (@parts_two owner repo Hso Hsr). repeat split.
    - rewrite <- app_assoc. cbn [app].
      exact (@parts_owner_repo base owner repo Hso Hsr). }
  cbv zeta in Hparts. destruct Hparts as (Hlen & Hrepo & Howner).
  unfold parseRepoUrl.
  destruct Hurl as [-> | ->].
  - replace (replace_trailing_slash (before ++ owner ++ SLASH :: repo))
      with (before ++ owner ++ SLASH :: repo).
    + now rewrite Hlen, Hrepo, Howner.
    + symmetry.
      replace (before ++ owner ++ SLASH :: repo)
        with ((before ++ owner ++ [SLASH]) ++ repo)
        by (rewrite <- !app_assoc; reflexivity).
      now apply replace_trailing_slash_keeps.
  - replace (before ++ owner ++ SLASH :: repo ++ [SLASH])
      with ((before ++ owner ++ SLASH :: repo) ++ [SLASH])
      by (rewrite <- !app_assoc; reflexivity).
    rewrite replace_trailing_slash_drops.
    now rewrite Hlen, Hrepo, Howner.
Qed.

(** C9, amended. A repository URL that, one trailing slash removed,
    holds no [/] is rejected with the invalid-URL error, and no URL has
    been handed to [fetch]. *)
Theorem fetchRepoContents_invalid_url
    (net : jsstring -> Exc Response) (url : jsstring) :
  includes (replace_trailing_slash url) (js "/") = false ->
  fetchRepoContents net url
  = ([], Throw (js "Invalid GitHub URL format. Use https://github.com/owner/repo")).
Proof.
  intros H. apply parseRepoUrl_none in H.
  unfold fetchRepoContents. now rewrite H.
Qed.

Lemma fetchRepoContents_invalid_url_witness :
  includes (replace_trailing_slash (js "vibe-architecture/")) (js "/") = false
  /\ fetchRepoContents (fun _ => Throw (js "offline"))
       (js "vibe-architecture/")
     = ([], Throw (js "Invalid GitHub URL format. Use https://github.com/owner/repo")).
Proof.
  split; [reflexivity|].
  apply fetchRepoContents_invalid_url. reflexivity.
Defined.

(** The locators the guard rejects are among those without recognizable
    segments. *)
Lemma slashless_unrecognized (url : jsstring) :
  includes (replace_trailing_slash url) (js "/") = false ->
  ~ names_repository url.
Proof.
  intros H Hn. apply parseRepoUrl_none in H.
  apply names_repository_parsed in Hn as (owner & repo & _ & _ & E).
  congruence.
Qed.

(** Counterexample to C9 as the specification words it. The locator
    [https://github.com] has no owner and no repository segment, yet it
    passes the guard: the segments before and after its last [/] are
    taken for owner and repository, the owner being the empty string,
    and the tree request goes out; the call fails with the error of
    that request, not with the invalid-URL error. *)
Lemma fetchRepoContents_host_only :
  ~ names_repository (js "https://github.com")
  /\ parseRepoUrl (js "https://github.com") = Some ([], js "github.com")
  /\ fetchRepoContents Samples.sample_net (js "https://github.com")
     = ( [ js "https://api.github.com/repos//github.com/git/trees/main?recursive=1" ],
         Throw (js "Failed to fetch") ).
Proof.
  split; [|split; reflexivity].
  intros Hn.
  apply names_repository_parsed in Hn as (owner & repo & Ho & _ & E).
  vm_compute in E. injection E as <- _. now apply Ho.
Qed.

(** Conversely, any URL with a [/] left after that is taken apart into
    an owner and a repository, and the tree request goes out first. *)
Lemma fetchRepoContents_requests
    (net : jsstring -> Exc Response) (url : jsstring) :
  includes (replace_trailing_slash url) (js "/") = true ->
  exists owner repo rest,
    parseRepoUrl url = Some (owner, repo)
    /\ fst (fetchRepoContents net url)
       = treeUrl owner repo (js "main") :: rest.
Proof.
  intros H.
  destruct (parseRepoUrl url) as [[owner repo]|] eqn:E.
  - exists owner, repo. unfold fetchRepoContents. rewrite E.
    unfold bind at 1, fetch at 1.
    destruct (net (treeUrl owner repo (js "main"))) as [resp|m].
    + match goal with
      | |- context [let '(_, _) := ?p in _] => destruct p as [t1 r1]
      end.
      exists t1. split; reflexivity.
    + exists []. split; reflexivity.
  - apply parseRepoUrl_none in E. congruence.
Qed.

(** *** The sort *)

Section SortFacts.
Variable A : Type.
Variable cmp : A -> A -> Z.
Variable R : A -> A -> Prop.
Hypothesis R_trans : forall a b c, R a b -> R b c -> R a c.
Hypothesis cmp_lt : forall a b, (cmp a b < 0)%Z -> R a b.
Hypothesis cmp_ge : forall a b, (0 <= cmp a b)%Z -> R b a.

Lemma insert_perm (x : A) (l : list A) :
  Permutation (insert cmp x l) (x :: l).
Proof.
  induction l as [|y l IH]; simpl; [reflexivity|].
  destruct (Z.ltb (cmp x y) 0); [reflexivity|].
  rewrite IH. apply perm_swap.
Qed.

Lemma insert_sorted (x : A) (l : list A) :
  StronglySorted R l -> StronglySorted R (insert cmp x l).
Proof.
  induction l as [|y l IH]; simpl; intros Hs.
  - constructor; constructor.
  - apply StronglySorted_inv in Hs as [Hl Hy].
    destruct (Z.ltb_spec (cmp x y) 0) as [Hlt|Hge].
    + constructor; [constructor; assumption|].
      constructor; [now apply cmp_lt|].
      eapply Forall_impl; [|exact Hy].
      intros z Hz. eapply R_trans; [apply cmp_lt; exact Hlt | exact Hz].
    + constructor; [now apply IH|].
      rewrite Forall_forall. intros z Hz.
      apply (Permutation_in _ (insert_perm x l)) in Hz as [<-|Hz].
      * now apply cmp_ge.
      * rewrite Forall_forall in Hy. now apply Hy.
Qed.

Lemma sort_from_perm (l acc : list A) :
  Permutation (fold_left (fun a x => insert cmp x a) l acc) (l ++ acc).
Proof.
  revert acc; induction l as [|x l IH]; intros acc; simpl; [reflexivity|].
  rewrite IH, insert_perm. symmetry. apply Permutation_middle.
Qed.

Lemma sort_from_sorted (l acc : list A) :
  StronglySorted R acc ->
  StronglySorted R (fold_left (fun a x => insert cmp x a) l acc).
Proof.
  revert acc; induction l as [|x l IH]; intros acc Hs; simpl;
    [assumption|].
  apply IH. now apply insert_sorted.
Qed.

Lemma sort_perm (l : list A) : Permutation (sort cmp l) l.
Proof.
  unfold sort. rewrite sort_from_perm. now rewrite app_nil_r.
Qed.

Lemma sort_sorted (l : list A) : StronglySorted R (sort cmp l).
Proof. apply sort_from_sorted. constructor. Qed.
End SortFacts.

Lemma priority_trans (a b c : GitHubTreeItem) :
  priority a b -> priority b c -> priority a c.
Proof.
  unfold priority. intros [Ha | [Hb Hab]] [Hb' | [Hc Hbc]]; auto.
  - congruence.
  - right. split; [assumption | lia].
Qed.

Lemma compareFiles_lt (a b : GitHubTreeItem) :
  (compareFiles a b < 0)%Z -> priority a b.
Proof.
  unfold compareFiles, priority.
  destruct (is_manifest (item_path a)); [now left|].
  destruct (is_manifest (item_path b)); [lia|].
  intros H. right. split; [reflexivity | lia].
Qed.

Lemma compareFiles_ge (a b : GitHubTreeItem) :
  (0 <= compareFiles a b)%Z -> priority b a.
Proof.
  unfold compareFiles, priority.
  destruct (is_manifest (item_path a)); [lia|].
  destruct (is_manifest (item_path b)); [now left|].
  intros H. right. split; [reflexivity | lia].
Qed.

(** *** The selection *)

Lemma Subseq_length {A : Type} (l1 l2 : list A) :
  Subseq l1 l2 -> List.length l1 <= List.length l2.
Proof. induction 1; simpl; lia. Qed.

Lemma Subseq_In {A : Type} (l1 l2 : list A) (x : A) :
  Subseq l1 l2 -> In x l1 -> In x l2.
Proof.
  induction 1; simpl; intros Hin; auto.
  destruct Hin; auto.
Qed.

Lemma relevant_allowed (item : GitHubTreeItem) :
  relevant item = true -> allowed (item_path item).
Proof.
  unfold relevant, allowed.
  destruct (is_blob (item_type item)); cbn [negb]; [|discriminate].
  intros H. apply andb_true_iff in H as [Hcode Hlock].
  apply negb_true_iff in Hlock.
  unfold isCode in Hcode. apply existsb_exists in Hcode.
  unfold isLock in Hlock. rewrite !orb_false_iff in Hlock.
  tauto.
Qed.

Section Selection.
Variable net : jsstring -> Exc Response.
Variables owner repo : jsstring.
Variable data : TreeData.

(** A file callback never rejects: it yields [null] or the file of
    that path. *)
Lemma fetchFile_resolves (file : GitHubTreeItem) :
  exists t res,
    fetchFile net owner repo data file = (t, Return res)
    /\ (res = None
        \/ exists f, res = Some f /\ path f = item_path file).
Proof.
  unfold fetchFile, try_or, bind, fetch, lift, ret.
  destruct (net _) as [fileRes|m]; [|eauto].
  destruct (ok fileRes); simpl; [|eauto].
  destruct (text fileRes) as [t|m]; simpl; [|eauto].
  do 2 eexists. split; [reflexivity|]. right. eauto.
Qed.

Lemma all_fetchFile (l : list GitHubTreeItem) :
  exists t results,
    all (fetchFile net owner repo data) l = (t, Return results)
    /\ Subseq (map path (non_null results)) (map item_path l).
Proof.
  induction l as [|file l (t & results & E & Hsub)]; simpl.
  - exists [], []. split; [reflexivity | constructor].
  - destruct (fetchFile_resolves file) as (t0 & res & E0 & Hres).
    unfold bind at 1. rewrite E0. unfold bind at 1. rewrite E. simpl.
    do 2 eexists. split; [reflexivity|]. simpl.
    destruct Hres as [-> | (f & -> & <-)]; simpl; now constructor.
Qed.
End Selection.

(** C10. Whenever the hosting API returns a tree listing,
    [fetchRepoContents] resolves with at most 20 files; the path of
    every file carries an allowed extension and none of the excluded
    substrings; and the files are, in order, among the first 20 of a
    rearrangement of the relevant entries of the listing that puts a
    [package.json] manifest first and a shallower path before a deeper
    one. *)
Theorem fetchRepoContents_selection
    (net : jsstring -> Exc Response) (url owner repo : jsstring)
    (data : TreeData) :
  parseRepoUrl url = Some (owner, repo) ->
  serves net owner repo data ->
  exists requests files,
    fetchRepoContents net url = (requests, Return files)
    /\ List.length files <= 20
    /\ Forall (fun f => allowed (path f)) files
    /\ exists sorted,
         Permutation sorted (filter relevant (data_tree data))
         /\ StronglySorted priority sorted
         /\ Subseq (map path files) (map item_path (firstn 20 sorted)).
Proof.
  intros Hparse (r & Hok & Hjson & Hnet).
  destruct (all_fetchFile net owner repo data (limitedFiles data))
    as (t & results & Hall & Hsub).
  assert (Hrun : exists requests,
             fetchRepoContents net url = (requests, Return (non_null results))).
  { unfold fetchRepoContents. rewrite Hparse.
    destruct Hnet as [Hmain | (r0 & Hmain & Hok0 & Hst & Hmaster)];
      unfold bind at 1, fetch at 1; rewrite Hmain.
    - rewrite Hok. cbn [negb andb]. unfold bind at 1, ret at 1.
      rewrite Hok. cbn [negb]. unfold bind at 1, lift. rewrite Hjson.
      unfold bind at 1. rewrite Hall. simpl. eauto.
    - rewrite Hok0, Hst. cbn [negb andb N.eqb Pos.eqb].
      unfold bind at 1, fetch at 1. rewrite Hmaster.
      rewrite Hok. cbn [negb]. unfold bind at 1, lift. rewrite Hjson.
      unfold bind at 1. rewrite Hall. simpl. eauto. }
  destruct Hrun as (requests & Hrun).
  exists requests, (non_null results). split; [exact Hrun|].
  pose proof (sort_perm compareFiles (relevantFiles data)) as Hperm.
  split; [|split].
  - apply Subseq_length in Hsub. rewrite !length_map in Hsub.
    unfold limitedFiles in Hsub.
    pose proof (firstn_le_length 20
                  (sort compareFiles (relevantFiles data))).
    rewrite length_firstn in Hsub. lia.
  - rewrite Forall_forall. intros f Hf.
    apply (in_map path) in Hf.
    eapply Subseq_In in Hf; [|exact Hsub].
    apply in_map_iff in Hf as (item & <- & Hitem).
    apply relevant_allowed.
    unfold limitedFiles in Hitem.
    assert (Hin : In item (sort compareFiles (relevantFiles data))).
    { rewrite <- (firstn_skipn 20). apply in_or_app. now left. }
    clear Hitem. rename Hin into Hitem.
    apply (Permutation_in _ Hperm) in Hitem.
    unfold relevantFiles in Hitem. now apply filter_In in Hitem.
  - exists (sort compareFiles (relevantFiles data)).
    split; [exact Hperm|]. split; [|exact Hsub].
    apply sort_sorted.
    + exact priority_trans.
    + exact compareFiles_lt.
    + exact compareFiles_ge.
Qed.

Lemma fetchRepoContents_selection_witness :
  exists requests files,
    fetchRepoContents Samples.sample_net Samples.sample_url
    = (requests, Return files)
    /\ List.length files <= 20
    /\ Forall (fun f => allowed (path f)) files
    /\ exists sorted,
         Permutation sorted (filter relevant (data_tree Samples.sample_data))
         /\ StronglySorted priority sorted
         /\ Subseq (map path files) (map item_path (firstn 20 sorted)).
Proof.
  apply (@fetchRepoContents_selection Samples.sample_net Samples.sample_url
           (js "acme") (js "demo") Samples.sample_data).
  - reflexivity.
  - eexists. split; [|split; [|left; reflexivity]]; reflexivity.
Defined.

(** On the sample repository: the tree request, then the three relevant
    files in sorted order; the README, whose content is not served, is
    left out of the result. *)
Example fetchRepoContents_sample :
  fetchRepoContents Samples.sample_net Samples.sample_url
  = ( [ js "https://api.github.com/repos/acme/demo/git/trees/main?recursive=1";
        js "https://raw.githubusercontent.com/acme/demo/main/package.json";
        js "https://raw.githubusercontent.com/acme/demo/main/README.md";
        js "https://raw.githubusercontent.com/acme/demo/main/App.tsx";
        js "https://raw.githubusercontent.com/acme/demo/main/components/AgentCard.tsx" ],
      Return [ mkRepoFile (js "package.json") (js "export {}") 9;
               mkRepoFile (js "App.tsx") (js "export {}") 9;
               mkRepoFile (js "components/AgentCard.tsx") (js "export {}") 9 ] ).
Proof. vm_compute. reflexivity. Qed.

Example parseRepoUrl_host_only :
  parseRepoUrl (js "https://github.com") = Some ([], js "github.com").
Proof. reflexivity. Qed.

End GitHubFacts.

(* ===================================================================== *)
(** ** The pipeline controller *)
(* ===================================================================== *)

Module ControllerFacts.
Import JsString Controller ControllerSpec.

Lemma falsy_nil (s : jsstring) : falsy s = true <-> s = [].
Proof. destruct s; simpl; split; congruence. Qed.

Lemma falsy_cons (s : jsstring) : s <> [] -> falsy s = false.
Proof. destruct s; simpl; congruence. Qed.

Lemma or_else_nonempty (m d : jsstring) : d <> [] -> or_else m d <> [].
Proof. unfold or_else. destruct m; simpl; congruence. Qed.

Section Handlers.
Context {services : Services}.

(** The hooks and the events, field by field. *)
Ltac open_world w :=
  destruct w as [[u o e i r [st lg fp er] fs] evs];
  cbn [fst snd repoUrl objective errorFeedback referenceImages
       refinementInput state repoFilesRef status missionLog finalPrompt
       error] in *.

(** One handler step after the other, up to the next awaited call. *)
Ltac run :=
  cbv beta iota zeta delta
    [executePipeline executeRefinement bind try_catch setState
     setRepoFiles setRefinementInput await ret with_status
     with_missionLog with_state with_files with_feedback
     fst snd repoUrl objective errorFeedback referenceImages
     refinementInput state repoFilesRef status missionLog finalPrompt
     error orb falsy falsy_opt].

Ltac finish := rewrite <- ?app_assoc; reflexivity.

(** Nothing happened: no event was added. *)
Ltac idle :=
  repeat split; exists []; split; [now rewrite app_nil_r | now left].

Ltac nonempty_inputs Hurl Hobj :=
  match type of Hurl with ?x <> [] =>
    destruct x; [contradiction|] end;
  match type of Hobj with ?x <> [] =>
    destruct x; [contradiction|] end.

(** C4. With an empty repository locator or an empty objective,
    [executePipeline] returns at once: the hooks (status, mission log,
    final prompt, error and all the rest) are as before, and no state
    has been committed and no call issued. *)
Theorem executePipeline_noop (w : World) :
  repoUrl (fst w) = [] \/ objective (fst w) = [] ->
  executePipeline w = (Return tt, w).
Proof.
  intros H. unfold executePipeline.
  assert (E : falsy (repoUrl (fst w)) || falsy (objective (fst w)) = true).
  { apply orb_true_iff. now rewrite !falsy_nil. }
  now rewrite E.
Qed.

(** C5. With a locator and an objective, [executePipeline] begins by
    committing the reset state (fetching, the initial manifesto as
    mission log, no final prompt, no error) and calling the fetcher;
    and when the fetch and the three stages succeed, the events are
    exactly: the fetch, then Scout on the fetched files, then
    Architect on Scout's output, then Taskmaster on Architect's
    output, each preceded by the commit of its working status, with
    Scout's and Architect's outputs committed as mission log and
    Taskmaster's as final prompt of the completed state. *)
Theorem executePipeline_success (w : World) :
  let a := fst w in
  let reset := mkAgentState FETCHING_REPO INITIAL_MISSION_LOG None None in
  repoUrl a <> [] ->
  objective a <> [] ->
  (exists rest,
      snd (snd (executePipeline w))
      = snd w ++ Committed reset
                 :: Called (FetchRepoContents (repoUrl a)) :: rest)
  /\ forall files scoutLog architectLog prompt,
      fetchRepoContents (repoUrl a) = Return files ->
      runScoutAgent (objective a) (errorFeedback a) files
                    (referenceImages a) = Return scoutLog ->
      runArchitectAgent scoutLog (objective a) (errorFeedback a)
                        (referenceImages a) = Return architectLog ->
      runTaskmasterAgent architectLog files = Return prompt ->
      executePipeline w
      = (Return tt,
         (with_files files
            (with_state
               (mkAgentState COMPLETED architectLog (Some prompt) None) a),
          snd w ++
          [ Committed reset;
            Called (FetchRepoContents (repoUrl a));
            Committed (mkAgentState SCOUT_WORKING INITIAL_MISSION_LOG
                                    None None);
            Called (ScoutAgent (objective a) (errorFeedback a) files
                               (referenceImages a));
            Committed (mkAgentState SCOUT_WORKING scoutLog None None);
            Committed (mkAgentState ARCHITECT_WORKING scoutLog None None);
            Called (ArchitectAgent scoutLog (objective a)
                                   (errorFeedback a) (referenceImages a));
            Committed (mkAgentState ARCHITECT_WORKING architectLog
                                    None None);
            Committed (mkAgentState TASKMASTER_WORKING architectLog
                                    None None);
            Called (TaskmasterAgent architectLog files);
            Committed (mkAgentState COMPLETED architectLog (Some prompt)
                                    None) ])).
Proof.
  intros a reset. subst a reset. open_world w. intros Hurl Hobj.
  nonempty_inputs Hurl Hobj. split.
  - run.
    destruct (fetchRepoContents _) as [files|m]; [|eexists; finish].
    destruct (runScoutAgent _ _ _ _) as [scoutLog|m]; [|eexists; finish].
    destruct (runArchitectAgent _ _ _ _) as [architectLog|m];
      [|eexists; finish].
    destruct (runTaskmasterAgent _ _) as [prompt|m]; eexists; finish.
  - intros files scoutLog architectLog prompt Hf Hs Ha Ht.
    run. rewrite Hf. run. rewrite Hs. run. rewrite Ha. run. rewrite Ht.
    finish.
Qed.

(** C6. When the fetch or a stage fails, [executePipeline] commits
    the error state right after the failed call and stops: the status
    is error, a non-empty message is stored, no later stage is called,
    and mission log and final prompt are those of the moment of
    failure.  After a failed fetch or Scout the mission log is the
    manifesto; after a failed Architect it is Scout's output and the
    final prompt is still null; after a failed Taskmaster it is
    Architect's output. *)
Theorem executePipeline_failure (w : World) (m : jsstring) :
  let a := fst w in
  let reset := mkAgentState FETCHING_REPO INITIAL_MISSION_LOG None None in
  let message := or_else m PIPELINE_ERROR in
  let failed log := mkAgentState ERROR log None (Some message) in
  repoUrl a <> [] ->
  objective a <> [] ->
  message <> []
  /\ (fetchRepoContents (repoUrl a) = Throw m ->
      executePipeline w
      = (Return tt,
         (with_state (failed INITIAL_MISSION_LOG) a,
          snd w ++
          [ Committed reset;
            Called (FetchRepoContents (repoUrl a));
            Committed (failed INITIAL_MISSION_LOG) ])))
  /\ (forall files,
      fetchRepoContents (repoUrl a) = Return files ->
      runScoutAgent (objective a) (errorFeedback a) files
                    (referenceImages a) = Throw m ->
      executePipeline w
      = (Return tt,
         (with_files files (with_state (failed INITIAL_MISSION_LOG) a),
          snd w ++
          [ Committed reset;
            Called (FetchRepoContents (repoUrl a));
            Committed (mkAgentState SCOUT_WORKING INITIAL_MISSION_LOG
                                    None None);
            Called (ScoutAgent (objective a) (errorFeedback a) files
                               (referenceImages a));
            Committed (failed INITIAL_MISSION_LOG) ])))
  /\ (forall files scoutLog,
      fetchRepoContents (repoUrl a) = Return files ->
      runScoutAgent (objective a) (errorFeedback a) files
                    (referenceImages a) = Return scoutLog ->
      runArchitectAgent scoutLog (objective a) (errorFeedback a)
                        (referenceImages a) = Throw m ->
      executePipeline w
      = (Return tt,
         (with_files files (with_state (failed scoutLog) a),
          snd w ++
          [ Committed reset;
            Called (FetchRepoContents (repoUrl a));
            Committed (mkAgentState SCOUT_WORKING INITIAL_MISSION_LOG
                                    None None);
            Called (ScoutAgent (objective a) (errorFeedback a) files
                               (referenceImages a));
            Committed (mkAgentState SCOUT_WORKING scoutLog None None);
            Committed (mkAgentState ARCHITECT_WORKING scoutLog None None);
            Called (ArchitectAgent scoutLog (objective a)
                                   (errorFeedback a) (referenceImages a));
            Committed (failed scoutLog) ])))
  /\ (forall files scoutLog architectLog,
      fetchRepoContents (repoUrl a) = Return files ->
      runScoutAgent (objective a) (errorFeedback a) files
                    (referenceImages a) = Return scoutLog ->
      runArchitectAgent scoutLog (objective a) (errorFeedback a)
                        (referenceImages a) = Return architectLog ->
      runTaskmasterAgent architectLog files = Throw m ->
      executePipeline w
      = (Return tt,
         (with_files files (with_state (failed architectLog) a),
          snd w ++
          [ Committed reset;
            Called (FetchRepoContents (repoUrl a));
            Committed (mkAgentState SCOUT_WORKING INITIAL_MISSION_LOG
                                    None None);
            Called (ScoutAgent (objective a) (errorFeedback a) files
                               (referenceImages a));
            Committed (mkAgentState SCOUT_WORKING scoutLog None None);
            Committed (mkAgentState ARCHITECT_WORKING scoutLog None None);
            Called (ArchitectAgent scoutLog (objective a)
                                   (errorFeedback a) (referenceImages a));
            Committed (mkAgentState ARCHITECT_WORKING architectLog
                                    None None);
            Committed (mkAgentState TASKMASTER_WORKING architectLog
                                    None None);
            Called (TaskmasterAgent architectLog files);
            Committed (failed architectLog) ]))).
Proof.
  intros a reset message failed. subst a reset message failed.
  open_world w. intros Hurl Hobj.
  split; [apply or_else_nonempty; discriminate|].
  nonempty_inputs Hurl Hobj.
  split; [|split; [|split]].
  - intros Hf. run. rewrite Hf. finish.
  - intros files Hf Hs. run. rewrite Hf. run. rewrite Hs. finish.
  - intros files scoutLog Hf Hs Ha.
    run. rewrite Hf. run. rewrite Hs. run. rewrite Ha. finish.
  - intros files scoutLog architectLog Hf Hs Ha Ht.
    run. rewrite Hf. run. rewrite Hs. run. rewrite Ha. run. rewrite Ht.
    finish.
Qed.

(** C7. [executeRefinement] returns at once, with nothing changed and
    no call issued, when there is no final prompt or the refinement
    feedback is empty.  When it runs and the Refiner succeeds, the
    final prompt is the Refiner's return value, the status is
    completed and the feedback input is empty; when the Refiner
    fails, the status is error, a non-empty message is stored and the
    final prompt is as before. *)
Theorem executeRefinement_contract (w : World) :
  let a := fst w in
  let s := state a in
  let refining p := mkAgentState REFINING (missionLog s) (Some p) None in
  (finalPrompt s = None \/ refinementInput a = [] ->
   executeRefinement w = (Return tt, w))
  /\ forall p,
      finalPrompt s = Some p ->
      p <> [] ->
      refinementInput a <> [] ->
      let call :=
        RefinerAgent p (refinementInput a) (missionLog s)
                     (repoFilesRef a) in
      (forall updated,
          runRefinerAgent p (refinementInput a) (missionLog s)
                          (repoFilesRef a) = Return updated ->
          let done :=
            mkAgentState COMPLETED (missionLog s) (Some updated) None in
          executeRefinement w
          = (Return tt,
             (with_feedback [] (with_state done a),
              snd w ++
              [Committed (refining p); Called call; Committed done])))
      /\ (forall m,
          runRefinerAgent p (refinementInput a) (missionLog s)
                          (repoFilesRef a) = Throw m ->
          let failed :=
            mkAgentState ERROR (missionLog s) (Some p)
                         (Some (or_else m REFINE_ERROR)) in
          or_else m REFINE_ERROR <> []
          /\ executeRefinement w
             = (Return tt,
                (with_state failed a,
                 snd w ++
                 [Committed (refining p); Called call; Committed failed]))).
Proof.
  intros a s refining. subst a s refining. open_world w. split.
  - intros [-> | ->]; [run; now destruct r | reflexivity].
  - intros p -> Hne Hfb.
    destruct p as [|c p]; [contradiction|].
    destruct r as [|c' r]; [contradiction|].
    split; [intros updated Hr | intros m Hr; split;
                                [apply or_else_nonempty; discriminate|]];
      run; rewrite Hr; finish.
Qed.

(** C8. Whatever [executeRefinement] does, the mission log and the
    retained file list are afterwards what they were before (of the
    hooks, only the agent state and the feedback input can differ),
    and the only call it can issue is one Refiner call, on the whole
    current final prompt, the feedback input, the current mission log
    and the retained file list; the fetcher is never called.  The
    retained file list is the one the fetcher returned in the pipeline
    run. *)
Theorem executeRefinement_frame (w : World) :
  let a := fst w in
  let w' := snd (executeRefinement w) in
  (missionLog (state (fst w')) = missionLog (state a)
   /\ repoFilesRef (fst w') = repoFilesRef a
   /\ fst w'
      = with_feedback (refinementInput (fst w'))
                      (with_state (state (fst w')) a)
   /\ exists evs,
        snd w' = snd w ++ evs
        /\ (calls evs = []
            \/ exists p,
                 finalPrompt (state a) = Some p
                 /\ calls evs
                    = [RefinerAgent p (refinementInput a)
                                    (missionLog (state a))
                                    (repoFilesRef a)]))
  /\ forall files,
      repoUrl a <> [] ->
      objective a <> [] ->
      fetchRepoContents (repoUrl a) = Return files ->
      repoFilesRef (fst (snd (executePipeline w))) = files.
Proof.
  intros a w'. subst a w'. open_world w. split.
  - destruct r as [|c r]; [run; idle|].
    destruct fp as [[|c' p]|]; [run; idle| |run; idle].
    run.
    destruct (runRefinerAgent _ _ _ _) as [updated|m]; run;
      (repeat split);
      eexists; (split; [rewrite <- ?app_assoc; reflexivity|]);
      right; eexists; (split; reflexivity).
  - intros files Hurl Hobj Hf. nonempty_inputs Hurl Hobj.
    run. rewrite Hf. run.
    destruct (runScoutAgent _ _ _ _) as [scoutLog|m]; [|reflexivity].
    run.
    destruct (runArchitectAgent _ _ _ _) as [architectLog|m];
      [|reflexivity].
    run.
    destruct (runTaskmasterAgent _ _) as [prompt|m]; reflexivity.
Qed.

(** After a refinement has run, the chunks on display are those of the
    Refiner's return value. *)
Lemma parsedPrompts_with_state (s : AgentState) (a : App) :
  parsedPrompts (with_state s a)
  = match finalPrompt s with
    | Some p => if falsy p then [] else Parser.parsePrompts p
    | None => []
    end.
Proof. reflexivity. Qed.
End Handlers.

(** In the running application a locator that cannot be taken apart ends
    the run in the error state with the fetcher's message; the fetcher
    is the only service called. *)
Lemma executePipeline_invalid_url
    (net : jsstring -> Exc GitHub.Response)
    (scout : jsstring -> jsstring -> list RepoFile -> list ImageRef
             -> Exc jsstring)
    (architect : jsstring -> jsstring -> jsstring -> list ImageRef
                 -> Exc jsstring)
    (taskmaster : jsstring -> list RepoFile -> Exc jsstring)
    (refiner : jsstring -> jsstring -> jsstring -> list RepoFile
               -> Exc jsstring)
    (w : World) :
  repoUrl (fst w) <> [] ->
  objective (fst w) <> [] ->
  includes (replace_trailing_slash (repoUrl (fst w))) (js "/") = false ->
  let w' :=
    snd (executePipeline
           (services := liveServices net scout architect taskmaster refiner)
           w) in
  status (state (fst w')) = ERROR
  /\ error (state (fst w'))
     = Some (js "Invalid GitHub URL format. Use https://github.com/owner/repo")
  /\ calls (snd w') = calls (snd w) ++ [FetchRepoContents (repoUrl (fst w))].
Proof.
  destruct w as [[u o e i r [st lg fp er] fs] evs].
  cbn [fst snd repoUrl objective]. intros Hurl Hobj Hbad.
  apply GitHubFacts.parseRepoUrl_none in Hbad.
  destruct u as [|c u]; [contradiction|].
  destruct o as [|c' o]; [contradiction|].
  cbv beta iota zeta delta
    [executePipeline bind try_catch setState setRepoFiles await ret
     fst snd repoUrl objective errorFeedback referenceImages
     refinementInput state repoFilesRef status missionLog finalPrompt
     error orb falsy fetchRepoContents liveServices].
  unfold GitHub.fetchRepoContents. rewrite Hbad.
  cbn [snd GitHub.throw fst state status error].
  repeat split.
  rewrite <- !app_assoc. cbn [app].
  induction evs as [|[s|c0] evs IH]; cbn [app calls]; congruence.
Qed.

Ltac by_eval := intros E; vm_compute in E; discriminate E.

Lemma executePipeline_noop_witness :
  executePipeline (services := Samples.steady) (initialApp, [])
  = (Return tt, (initialApp, [])).
Proof.
  apply (@executePipeline_noop Samples.steady (initialApp, [])).
  left. reflexivity.
Defined.

Lemma executePipeline_success_witness :
  let w' := snd (executePipeline (services := Samples.steady) Samples.ready) in
  status (state (fst w')) = COMPLETED
  /\ missionLog (state (fst w')) = js "planned"
  /\ finalPrompt (state (fst w')) = Some Samples.scenario
  /\ List.length (calls (snd w')) = 4.
Proof.
  pose proof (@executePipeline_success Samples.steady Samples.ready) as H.
  cbv zeta in H.
  destruct H as [_ H]; [by_eval | by_eval |].
  rewrite (H Samples.sample_files (js "scouted") (js "planned")
             Samples.scenario eq_refl eq_refl eq_refl eq_refl).
  repeat split.
Defined.

Lemma executePipeline_failure_witness :
  let w' := snd (executePipeline (services := Samples.faulty) Samples.ready) in
  status (state (fst w')) = ERROR
  /\ error (state (fst w')) = Some (js "Architect Agent failed to plan.")
  /\ missionLog (state (fst w')) = js "scouted"
  /\ finalPrompt (state (fst w')) = None
  /\ List.length (calls (snd w')) = 3.
Proof.
  pose proof (@executePipeline_failure Samples.faulty Samples.ready
                (js "Architect Agent failed to plan.")) as H.
  cbv zeta in H.
  destruct H as (_ & _ & _ & H & _); [by_eval | by_eval |].
  rewrite (H Samples.sample_files (js "scouted") eq_refl eq_refl eq_refl).
  repeat split.
Defined.

Lemma executeRefinement_contract_witness :
  let w' :=
    snd (executeRefinement (services := Samples.steady) Samples.completed) in
  status (state (fst w')) = COMPLETED
  /\ finalPrompt (state (fst w')) = Some Samples.single
  /\ refinementInput (fst w') = [].
Proof.
  pose proof (@executeRefinement_contract Samples.steady Samples.completed)
    as H.
  cbv zeta in H. destruct H as [_ H].
  destruct (H Samples.scenario eq_refl) as [H1 _]; [by_eval | by_eval |].
  rewrite (H1 Samples.single eq_refl).
  repeat split.
Defined.

Lemma executeRefinement_frame_witness :
  repoFilesRef
    (fst (snd (executePipeline (services := Samples.faulty) Samples.ready)))
  = Samples.sample_files.
Proof.
  pose proof (@executeRefinement_frame Samples.faulty Samples.ready) as H.
  cbv zeta in H. destruct H as [_ H].
  apply H; [by_eval | by_eval | reflexivity].
Defined.

End ControllerFacts.

(* ===================================================================== *)
(** ** More on the parser *)
(* ===================================================================== *)

Module ChunkFacts.
Import JsString Regex Parser Delimiter Chunks JsStringFacts RegexFacts ParserFacts.

Lemma rep_lazy_first (p : codeunit -> bool) (s : jsstring)
    (k : jsstring -> result) (r : jsstring * captures) :
  rep false p 0 s k = Some r ->
  exists pre s',
    s = pre ++ s' /\ forallb p pre = true /\ k s' = Some r
    /\ forall a b, pre = a ++ b -> b <> [] -> k (b ++ s') = None.
Proof.
  induction s as [|x s IH]; simpl; intros H.
  - destruct (k []) as [r'|] eqn:E; [|discriminate].
    exists [], []. repeat split; [congruence|].
    intros a b Hab Hb. destruct a, b; try discriminate. contradiction.
  - destruct (k (x :: s)) as [r'|] eqn:E.
    + exists [], (x :: s). repeat split; [congruence|].
      intros a b Hab Hb. destruct a, b; try discriminate. contradiction.
    + destruct (p x) eqn:Hp; [|discriminate].
      destruct (IH H) as (pre & s' & -> & Hall & Hk & Hmin).
      exists (x :: pre), s'. simpl. rewrite Hp. repeat split; auto.
      intros a b Hab Hb. destruct a as [|y a]; simpl in Hab.
      * subst b. exact E.
      * injection Hab as _ Hab. eauto.
Qed.

Lemma firstn_prefix (a b : jsstring) :
  firstn (List.length (a ++ b) - List.length b) (a ++ b) = a.
Proof.
  rewrite length_app, Nat.add_sub.
  rewrite firstn_app, Nat.sub_diag, firstn_all. simpl. apply app_nil_r.
Qed.

Lemma exec_at_shape (s : jsstring) (c : captures) (n : nat) :
  exec_at regex s = Some (c, n) ->
  exists number title pre rest,
    s = js "=== PROMPT " ++ number ++ js ": " ++ title ++ js " ==="
          ++ pre ++ rest
    /\ number <> [] /\ forallb is_digit number = true
    /\ forallb is_dot title = true
    /\ group 1 c = number /\ group 2 c = title /\ group 3 c = pre
    /\ n = List.length s - List.length rest
    /\ look rest = true
    /\ (forall a b, pre = a ++ b -> b <> [] -> look (b ++ rest) = false).
Proof.
  unfold exec_at.
  destruct (run regex s [] (fun s1 c1 => Some (s1, c1))) as [[s9 c9]|] eqn:H;
    [|discriminate].
  intros E; injection E as <- <-.
  unfold regex in H. cbn [run] in H. rewrite run_lit in H.
  destruct (strip_prefix (js "=== PROMPT ") s) as [s1|] eqn:E1;
    [|discriminate].
  apply strip_prefix_app in E1.
  apply rep_some in H as (number & s2 & -> & Hnum & Hlen & H).
  rewrite run_lit in H.
  destruct (strip_prefix (js ": ") s2) as [s3|] eqn:E3; [|discriminate].
  apply strip_prefix_app in E3.
  apply rep_some in H as (title & s4 & -> & Ht & _ & H).
  rewrite run_lit in H.
  destruct (strip_prefix (js " ===") s4) as [s5|] eqn:E5; [|discriminate].
  apply strip_prefix_app in E5.
  apply rep_lazy_first in H as (pre & rest & -> & _ & H & Hmin).
  exists number, title, pre, rest.
  assert (Hres : look rest = true
                 /\ s9 = rest
                 /\ exists g4, c9 = (4, g4)
                      :: (3, firstn (List.length (pre ++ rest)
                                     - List.length rest) (pre ++ rest))
                      :: (2, firstn (List.length (title ++ s4)
                                     - List.length s4) (title ++ s4))
                      :: (1, firstn (List.length (number ++ s2)
                                     - List.length s2) (number ++ s2))
                      :: []).
  { rewrite run_lit in H. unfold look, startsWith, MARKER.
    destruct (strip_prefix (js "=== PROMPT") rest) as [s6|].
    - injection H as <- <-. repeat split; eauto.
    - destruct rest as [|x rest']; [discriminate|].
      destruct (x =? LOWER_Z)%N; [|discriminate].
      injection H as <- <-. repeat split; eauto. }
  destruct Hres as (Hlook & -> & g4 & ->).
  unfold group. cbn [capture Nat.eqb]. rewrite !firstn_prefix.
  subst s s2 s4. repeat split; auto.
  - intros ->. simpl in Hlen. lia.
  - intros a b Hab Hb. specialize (Hmin a b Hab Hb).
    rewrite run_lit in Hmin. unfold look, startsWith, MARKER.
    destruct (strip_prefix (js "=== PROMPT") (b ++ rest));
      [discriminate|].
    destruct (b ++ rest) as [|x t]; [reflexivity|].
    destruct (x =? LOWER_Z)%N; [discriminate | reflexivity].
Qed.

(** Every match comes from a match attempt somewhere in the text. *)
Lemma matchAll_from_Forall (r : Regex.regex) (P : captures -> Prop) :
  (forall b c n, exec_at r b = Some (c, n) -> P c) ->
  forall s skip, Forall P (matchAll_from r skip s).
Proof.
  intros HP. induction s as [|x s IH]; intros skip.
  - destruct skip; simpl; [|constructor].
    destruct (exec_at r []) as [[c n]|] eqn:E; constructor; eauto.
  - destruct skip; simpl; [|apply IH].
    destruct (exec_at r (x :: s)) as [[c n]|] eqn:E; [|apply IH].
    constructor; eauto.
Qed.

Lemma trimStart_suffix (s : jsstring) :
  exists a, s = a ++ trimStart s.
Proof.
  induction s as [|c s (a & IH)]; simpl.
  - now exists [].
  - destruct (is_space c).
    + exists (c :: a). simpl. now rewrite <- IH.
    + now exists [].
Qed.

Lemma trimEnd_prefix (s : jsstring) :
  exists b, s = trimEnd s ++ b.
Proof.
  unfold trimEnd. destruct (trimStart_suffix (rev s)) as (a & H).
  exists (rev a). rewrite <- rev_app_distr, <- H. symmetry.
  apply rev_involutive.
Qed.

Lemma trim_infix (s : jsstring) :
  exists a b, s = a ++ trim s ++ b.
Proof.
  unfold trim. destruct (trimStart_suffix s) as (a & Ha).
  destruct (trimEnd_prefix (trimStart s)) as (b & Hb).
  exists a, b. now rewrite <- Hb.
Qed.

Lemma trim_trimmed (s : jsstring) : trimmed (trim s) = true.
Proof.
  unfold trimmed, trim. apply andb_true_iff. split.
  - destruct (trimEnd_prefix (trimStart s)) as (b & Hb).
    pose proof (trimStart_clean s) as Hc.
    destruct (trimEnd (trimStart s)) as [|c t]; [reflexivity|].
    rewrite Hb in Hc. simpl in Hc. now rewrite Hc.
  - unfold trimEnd. rewrite rev_involutive.
    pose proof (trimStart_clean (rev (trimStart s))) as Hc.
    destruct (trimStart (rev (trimStart s))); [reflexivity|].
    now rewrite Hc.
Qed.

Lemma includes_infix (a s b w : jsstring) :
  includes s w = true -> includes (a ++ s ++ b) w = true.
Proof.
  rewrite !includes_app. intros (x & y & ->).
  exists (a ++ x), (y ++ b). now rewrite <- !app_assoc.
Qed.

Lemma includes_trim (s w : jsstring) :
  includes s w = false -> includes (trim s) w = false.
Proof.
  intros H. destruct (includes (trim s) w) eqn:E; [|reflexivity].
  destruct (trim_infix s) as (a & b & Hs).
  apply (@includes_infix a (trim s) b w) in E. rewrite <- Hs in E. congruence.
Qed.

(** What the lazy group 3 has taken holds no place where the lookahead
    would have succeeded. *)
Lemma no_look_inside (pre rest w : jsstring) :
  w <> [] ->
  (forall t, look (w ++ t) = true) ->
  (forall a b, pre = a ++ b -> b <> [] -> look (b ++ rest) = false) ->
  includes pre w = false.
Proof.
  intros Hw Hl Hmin. destruct (includes pre w) eqn:E; [|reflexivity].
  apply includes_app in E as (a & b & ->).
  specialize (Hmin a (w ++ b) eq_refl).
  rewrite <- app_assoc, Hl in Hmin.
  assert (w ++ b <> []) by (destruct w; [contradiction | discriminate]).
  specialize (Hmin H). discriminate.
Qed.

Lemma parsePrompts_cases (P : ParsedPrompt -> Prop) (text : jsstring) :
  (forall b c n, exec_at regex b = Some (c, n) ->
     P (mkPrompt (group 1 c) (group 2 c) (trim (group 3 c)))) ->
  parsePrompts text = fallback text \/ Forall P (parsePrompts text).
Proof.
  intros HP. unfold parsePrompts.
  destruct (Nat.eqb (List.length (matchAll regex text)) 0); [now left|].
  right. apply Forall_map. apply matchAll_from_Forall. exact HP.
Qed.

(** X1. Unless it answers with the fallback chunk, every chunk of
    [parsePrompts] has a non-empty id made of digits, a title on one
    line, and a content with no white space at either end. *)
Theorem parsePrompts_chunks_well_formed (text : jsstring) :
  parsePrompts text = fallback text
  \/ Forall well_formed (parsePrompts text).
Proof.
  apply parsePrompts_cases. intros b c n H.
  apply exec_at_shape in H
    as (number & title & pre & rest & _ & Hne & Hd & Ht & -> & -> & -> & _).
  unfold well_formed. cbn [id Parser.title content].
  repeat split; auto. apply trim_trimmed.
Qed.

(** X2. Unless it answers with the fallback chunk, no chunk of
    [parsePrompts] has a letter z or the marker [=== PROMPT] in its
    content: the lazy group stops at the first of either. *)
Theorem parsePrompts_chunks_unmarked (text : jsstring) :
  parsePrompts text = fallback text
  \/ Forall unmarked (parsePrompts text).
Proof.
  apply parsePrompts_cases. intros b c n H.
  apply exec_at_shape in H
    as (number & title & pre & rest & _ & _ & _ & _ & _ & _ & -> & _ & _ & Hmin).
  unfold unmarked. cbn [content]. split; apply includes_trim.
  - apply (@no_look_inside pre rest); [discriminate| |exact Hmin].
    intros t. reflexivity.
  - apply (@no_look_inside pre rest); [discriminate| |exact Hmin].
    intros t. unfold look.
    assert (E : startsWith (MARKER ++ t) MARKER = true)
      by (apply startsWith_app; eauto).
    now rewrite E.
Qed.

Lemma occurrences_app (w a b : jsstring) :
  occurrences w b <= occurrences w (a ++ b).
Proof.
  induction a as [|x a IH]; [reflexivity|].
  cbn [app occurrences]. lia.
Qed.

Lemma occurrences_starts (w s : jsstring) :
  startsWith s w = true -> 1 <= occurrences w s.
Proof. intros H. destruct s; cbn [occurrences]; rewrite H; lia. Qed.

Lemma includes_suffix (a b w : jsstring) :
  includes (a ++ b) w = false -> includes b w = false.
Proof.
  intros H. destruct (includes b w) eqn:E; [|reflexivity].
  apply (@includes_infix a b [] w) in E. rewrite app_nil_r in E. congruence.
Qed.

(** In a text without the letter z the lookahead needs a marker. *)
Lemma look_marker (t : jsstring) :
  includes t (js "z") = false -> look t = true ->
  startsWith t MARKER = true.
Proof.
  unfold look. intros Hz H. apply orb_true_iff in H as [H|H]; [exact H|].
  destruct t as [|c t]; [discriminate|].
  apply N.eqb_eq in H. subst c.
  assert (E : includes (LOWER_Z :: t) (js "z") = true)
    by (apply includes_app; now exists [], t).
  congruence.
Qed.

Lemma exec_at_nil : exec_at regex [] = None.
Proof. reflexivity. Qed.

(** In a text without the letter z every match needs a marker after it:
    the last marker of the text starts no match. *)
Lemma matchAll_bound (s : jsstring) :
  includes s (js "z") = false ->
  forall skip,
    List.length (matchAll_from regex skip s) <= pred (occurrences MARKER s).
Proof.
  induction s as [|x s IH]; intros Hz skip.
  - destruct skip; cbn [matchAll_from]; [rewrite exec_at_nil|];
      cbn [List.length]; lia.
  - assert (Hz' : includes s (js "z") = false)
      by (apply (@includes_suffix [x] s); exact Hz).
    assert (Hocc : occurrences MARKER s <= occurrences MARKER (x :: s))
      by apply (@occurrences_app MARKER [x] s).
    destruct skip as [|k]; cbn [matchAll_from].
    + destruct (exec_at regex (x :: s)) as [[c n]|] eqn:E.
      * apply exec_at_shape in E
          as (number & title & pre & rest & Hs & _ & _ & _ & _ & _ & _ & _
              & Hlook & _).
        assert (Hrest : exists m, s = m ++ rest).
        { change (js "=== PROMPT " ++ number ++ js ": " ++ title
                    ++ js " ===" ++ pre ++ rest)
            with (61%N :: (js "== PROMPT " ++ number ++ js ": " ++ title
                    ++ js " ===" ++ pre ++ rest)) in Hs.
          injection Hs as _ ->.
          exists (js "== PROMPT " ++ number ++ js ": " ++ title
                    ++ js " ===" ++ pre).
          now rewrite <- !app_assoc. }
        destruct Hrest as (m & Hm).
        assert (Hin : 1 <= occurrences MARKER s).
        { rewrite Hm. etransitivity; [|apply occurrences_app].
          apply occurrences_starts, look_marker; [|exact Hlook].
          apply (@includes_suffix m rest). now rewrite <- Hm. }
        assert (Hhead : startsWith (x :: s) MARKER = true).
        { rewrite Hs. apply startsWith_app.
          exists (js " " ++ number ++ js ": " ++ title ++ js " ==="
                    ++ pre ++ rest). reflexivity. }
        cbn [List.length occurrences]. rewrite Hhead.
        specialize (IH Hz' (n - 1)). lia.
      * specialize (IH Hz' 0). lia.
    + specialize (IH Hz' k). lia.
Qed.

(** X3. On a text without the letter z, [parsePrompts] returns at most
    as many chunks as the text has markers [=== PROMPT] less one (and at
    least the one fallback chunk): the last marker never opens a
    chunk. *)
Theorem parsePrompts_loses_last (text : jsstring) :
  includes text (js "z") = false ->
  List.length (parsePrompts text)
  <= Nat.max 1 (occurrences MARKER text - 1).
Proof.
  intros Hz. pose proof (@matchAll_bound text Hz 0) as H.
  unfold parsePrompts, matchAll.
  destruct (Nat.eqb (List.length (matchAll_from regex 0 text)) 0).
  - cbn [List.length]. lia.
  - rewrite length_map. lia.
Qed.

(** X4. A text without the letter z and with at most one marker
    [=== PROMPT] is answered with the fallback chunk, whatever else it
    holds. *)
Theorem parsePrompts_single_step (text : jsstring) :
  includes text (js "z") = false ->
  occurrences MARKER text <= 1 ->
  parsePrompts text = fallback text.
Proof.
  intros Hz Hocc. pose proof (@matchAll_bound text Hz 0) as H.
  unfold parsePrompts, matchAll.
  assert (E : List.length (matchAll_from regex 0 text) = 0) by lia.
  now rewrite E.
Qed.

Lemma no_marker_no_delimiter (s : jsstring) :
  includes s MARKER = false -> has_delimiter s = false.
Proof.
  intros H. destruct (has_delimiter s) eqn:E; [|reflexivity].
  apply has_delimiter_iff in E
    as (before & d & after & -> & number & title & -> & _).
  assert (Hin : includes
            (before ++ (js "=== PROMPT " ++ number ++ js ": " ++ title
                          ++ js " ===") ++ after) MARKER = true).
  { apply includes_app.
    exists before, (js " " ++ number ++ js ": " ++ title ++ js " ==="
                      ++ after).
    rewrite <- !app_assoc. reflexivity. }
  congruence.
Qed.

Lemma matchAll_no_delimiter (text : jsstring) :
  has_delimiter text = false -> matchAll regex text = [].
Proof.
  intros H. apply matchAll_none. intros a b ->.
  destruct (exec_at regex b) as [m|] eqn:E; [|reflexivity].
  apply exec_at_starts in E. apply has_delimiter_suffix in H. congruence.
Qed.

(** X5. The content of any chunk parses to the fallback chunk of that
    content: a chunk is never split further. *)
Theorem parsePrompts_reparse (text : jsstring) :
  Forall (fun c => parsePrompts (content c) = fallback (content c))
         (parsePrompts text).
Proof.
  destruct (@parsePrompts_cases
              (fun c => parsePrompts (content c) = fallback (content c))
              text) as [E|H]; [|rewrite E; repeat constructor; exact E|exact H].
  intros b c n H.
  apply exec_at_shape in H
    as (number & title & pre & rest & _ & _ & _ & _ & _ & _ & -> & _ & _ & Hmin).
  cbn [content]. unfold parsePrompts.
  rewrite matchAll_no_delimiter; [reflexivity|].
  apply no_marker_no_delimiter, includes_trim.
  apply (@no_look_inside pre rest); [discriminate| |exact Hmin].
  intros t. unfold look.
  assert (E : startsWith (MARKER ++ t) MARKER = true)
    by (apply startsWith_app; eauto).
  now rewrite E.
Qed.

Lemma parsePrompts_nonempty (text : jsstring) : parsePrompts text <> [].
Proof.
  unfold parsePrompts.
  destruct (matchAll regex text); simpl; discriminate.
Qed.

(** X6. The chunk list of a render is empty exactly when the final
    prompt is null or the empty text; any other final prompt shows at
    least one chunk. *)
Theorem parsedPrompts_empty (a : Controller.App) :
  Controller.parsedPrompts a = []
  <-> Controller.falsy_opt (Controller.finalPrompt (Controller.state a))
      = true.
Proof.
  unfold Controller.parsedPrompts, Controller.falsy_opt.
  destruct (Controller.finalPrompt (Controller.state a)) as [p|];
    [|split; reflexivity].
  destruct (falsy p); [split; reflexivity|].
  split; [intros H; now apply parsePrompts_nonempty in H | discriminate].
Qed.

Lemma parsePrompts_loses_last_witness :
  List.length (parsePrompts Samples.scenario)
  <= Nat.max 1 (occurrences MARKER Samples.scenario - 1).
Proof.
  apply (@parsePrompts_loses_last Samples.scenario). reflexivity.
Defined.

Lemma parsePrompts_single_step_witness :
  parsePrompts Samples.single = fallback Samples.single.
Proof.
  apply (@parsePrompts_single_step Samples.single); [reflexivity|].
  vm_compute. apply le_n.
Defined.

End ChunkFacts.

(* ===================================================================== *)
(** ** More on the fetcher *)
(* ===================================================================== *)

Module FetcherFacts.
Import JsString JsStringFacts GitHub GitHubSpec GitHubFacts Requests.

Section Files.
Variable net : jsstring -> Exc Response.
Variables owner repo : jsstring.
Variable data : TreeData.

Lemma fetchFile_outcome (file : GitHubTreeItem) :
  exists res,
    fetchFile net owner repo data file
    = ([rawUrl owner repo (branch_of data) (item_path file)], Return res)
    /\ (res = None
        \/ exists f, res = Some f /\ served net owner repo data file f).
Proof.
  unfold fetchFile, try_or, bind, fetch, lift, ret, served, branch_of.
  destruct (net _) as [fileRes|m] eqn:E; [|eauto].
  destruct (ok fileRes) eqn:Hok; cbn [negb]; [|eauto].
  destruct (text fileRes) as [t|m] eqn:Ht; cbn [app]; [|eauto].
  eexists. split; [reflexivity|]. right. eexists. split; [reflexivity|].
  exists fileRes. cbn [path content size]. auto.
Qed.

Lemma all_fetchFile_outcome (l : list GitHubTreeItem) :
  exists results,
    all (fetchFile net owner repo data) l
    = (rawUrls owner repo data l, Return results)
    /\ Forall (fun f => exists item,
                 In item l /\ served net owner repo data item f)
              (non_null results).
Proof.
  induction l as [|file l (results & E & Hall)]; cbn [all rawUrls map].
  - exists []. split; [reflexivity | constructor].
  - destruct (fetchFile_outcome file) as (res & E0 & Hres).
    unfold bind at 1. rewrite E0. unfold bind at 1. rewrite E.
    cbn [ret app]. rewrite app_nil_r.
    exists (res :: results). split; [reflexivity|].
    assert (Hrest : Forall (fun f => exists item,
                       In item (file :: l)
                       /\ served net owner repo data item f)
                     (non_null results)).
    { eapply Forall_impl; [|exact Hall].
      intros f (item & Hin & Hs). exists item. split; [now right | exact Hs]. }
    destruct Hres as [-> | (f & -> & Hs)]; cbn [non_null]; [exact Hrest|].
    constructor; [|exact Hrest]. exists file. split; [now left | exact Hs].
Qed.
End Files.

Lemma limitedFiles_length (data : TreeData) :
  List.length (limitedFiles data) <= 20.
Proof. unfold limitedFiles. apply firstn_le_length. Qed.

(** X7. Whatever the network answers, one call of [fetchRepoContents]
    hands at most 22 URLs to [fetch]: two tree requests and twenty file
    requests. *)
Theorem fetchRepoContents_request_bound
    (net : jsstring -> Exc Response) (url : jsstring) :
  List.length (fst (fetchRepoContents net url)) <= 22.
Proof.
  unfold fetchRepoContents.
  destruct (parseRepoUrl url) as [[owner repo]|]; [|cbn; lia].
  assert (Hrest : forall r : Response,
    List.length (fst
      (if negb (ok r) then
         throw (js "Failed to fetch repo tree: " ++ statusText r
                  ++ js ". Ensure repo is public.")
       else
         bind (lift (json r)) (fun data =>
           bind (all (fetchFile net owner repo data) (limitedFiles data))
                (fun results => ret (non_null results))))) <= 20).
  { intros r. destruct (ok r); cbn [negb]; [|cbn; lia].
    unfold bind at 1, lift. destruct (json r) as [data|m]; [|cbn; lia].
    destruct (all_fetchFile_outcome net owner repo data (limitedFiles data))
      as (results & E & _).
    unfold bind. rewrite E. cbn [ret fst app]. rewrite app_nil_r.
    unfold rawUrls. rewrite length_map. apply limitedFiles_length. }
  unfold bind at 1, fetch at 1.
  destruct (net (treeUrl owner repo (js "main"))) as [r0|m]; [|cbn; lia].
  destruct (negb (ok r0) && N.eqb (status r0) 404).
  - unfold bind at 1, fetch at 1.
    destruct (net (treeUrl owner repo (js "master"))) as [r1|m];
      [|cbn; lia].
    specialize (Hrest r1).
    destruct (if negb (ok r1) then _ else _) as [t r]. cbn in *.
    lia.
  - unfold bind at 1, ret at 1. specialize (Hrest r0).
    destruct (if negb (ok r0) then _ else _) as [t r]. cbn in *. lia.
Qed.

(** With the listing served, a run is the tree request (two of them
    after a 404 for main), then the file requests. *)
Lemma fetchRepoContents_served
    (net : jsstring -> Exc Response) (url owner repo : jsstring)
    (data : TreeData) :
  parseRepoUrl url = Some (owner, repo) ->
  serves net owner repo data ->
  exists tree_requests results,
    (tree_requests = [treeUrl owner repo (js "main")]
     \/ tree_requests = [treeUrl owner repo (js "main");
                         treeUrl owner repo (js "master")])
    /\ fetchRepoContents net url
       = (tree_requests ++ rawUrls owner repo data (limitedFiles data),
          Return (non_null results))
    /\ Forall (fun f => exists item,
                 In item (limitedFiles data)
                 /\ served net owner repo data item f)
              (non_null results).
Proof.
  intros Hparse (r & Hok & Hjson & Hnet).
  destruct (all_fetchFile_outcome net owner repo data (limitedFiles data))
    as (results & Hall & Hserved).
  unfold fetchRepoContents. rewrite Hparse.
  destruct Hnet as [Hmain | (r0 & Hmain & Hok0 & Hst & Hmaster)];
    unfold bind at 1, fetch at 1; rewrite Hmain.
  - exists [treeUrl owner repo (js "main")], results.
    split; [now left|]. split; [|exact Hserved].
    rewrite Hok. cbn [negb andb]. unfold bind at 1, ret at 1.
    rewrite Hok. cbn [negb]. unfold bind at 1, lift. rewrite Hjson.
    unfold bind at 1. rewrite Hall. cbn [ret app]. now rewrite app_nil_r.
  - exists [treeUrl owner repo (js "main");
            treeUrl owner repo (js "master")], results.
    split; [now right|]. split; [|exact Hserved].
    rewrite Hok0, Hst. cbn [negb andb N.eqb Pos.eqb].
    unfold bind at 1, fetch at 1. rewrite Hmaster.
    rewrite Hok. cbn [negb]. unfold bind at 1, lift. rewrite Hjson.
    unfold bind at 1. rewrite Hall. cbn [ret app]. now rewrite app_nil_r.
Qed.

(** X8. When the listing is served, the requests are the tree request
    (and the one for master after a 404), then exactly one raw-content
    request per selected file, in the sorted order and on the branch
    read off the listing's URL, whether or not earlier ones fail. *)
Theorem fetchRepoContents_requests_in_order
    (net : jsstring -> Exc Response) (url owner repo : jsstring)
    (data : TreeData) :
  parseRepoUrl url = Some (owner, repo) ->
  serves net owner repo data ->
  exists tree_requests,
    (tree_requests = [treeUrl owner repo (js "main")]
     \/ tree_requests = [treeUrl owner repo (js "main");
                         treeUrl owner repo (js "master")])
    /\ fst (fetchRepoContents net url)
       = tree_requests ++ rawUrls owner repo data (limitedFiles data).
Proof.
  intros Hparse Hserves.
  destruct (@fetchRepoContents_served net url owner repo data Hparse Hserves)
    as (t & results & Ht & E & _).
  exists t. split; [exact Ht|]. now rewrite E.
Qed.

(** X9. When the listing is served, every returned file stems from a
    blob entry of the listing: it has that entry's path, its content is
    the text an [ok] response served for its raw URL, and its size is
    the entry's size or, when that is absent or zero, the length of the
    content. *)
Theorem fetchRepoContents_files_as_served
    (net : jsstring -> Exc Response) (url owner repo : jsstring)
    (data : TreeData) :
  parseRepoUrl url = Some (owner, repo) ->
  serves net owner repo data ->
  exists files,
    snd (fetchRepoContents net url) = Return files
    /\ Forall (fun f => exists item,
                 In item (data_tree data)
                 /\ item_type item = blob
                 /\ served net owner repo data item f)
              files.
Proof.
  intros Hparse Hserves.
  destruct (@fetchRepoContents_served net url owner repo data Hparse Hserves)
    as (t & results & _ & E & Hall).
  exists (non_null results). split; [now rewrite E|].
  eapply Forall_impl; [|exact Hall].
  intros f (item & Hin & Hs). exists item.
  assert (Hrel : In item (relevantFiles data)).
  { unfold limitedFiles in Hin.
    apply (Permutation_in _ (sort_perm compareFiles (relevantFiles data))).
    rewrite <- (firstn_skipn 20). apply in_or_app. now left. }
  unfold relevantFiles in Hrel. apply filter_In in Hrel as [Hin' Hrel].
  split; [exact Hin'|]. split; [|exact Hs].
  unfold relevant in Hrel. destruct (item_type item); [reflexivity|].
  discriminate.
Qed.

(** X10. When the tree cannot be read, [fetchRepoContents] rejects
    without asking for any file: with the network's own error when a
    tree request rejects, and with the failure message on the status
    text of the last response otherwise; only a 404 for main makes it
    try master. *)
Theorem fetchRepoContents_tree_unavailable
    (net : jsstring -> Exc Response) (url owner repo : jsstring) :
  parseRepoUrl url = Some (owner, repo) ->
  let main := treeUrl owner repo (js "main") in
  let master := treeUrl owner repo (js "master") in
  (forall m, net main = Throw m ->
     fetchRepoContents net url = ([main], Throw m))
  /\ (forall r, net main = Return r -> ok r = false -> status r <> 404%N ->
      fetchRepoContents net url = ([main], Throw (failure r)))
  /\ (forall r m, net main = Return r -> ok r = false -> status r = 404%N ->
      net master = Throw m ->
      fetchRepoContents net url = ([main; master], Throw m))
  /\ (forall r r', net main = Return r -> ok r = false -> status r = 404%N ->
      net master = Return r' -> ok r' = false ->
      fetchRepoContents net url = ([main; master], Throw (failure r'))).
Proof.
  intros Hparse main master. subst main master.
  unfold fetchRepoContents. rewrite Hparse.
  split; [|split; [|split]].
  - intros m E. unfold bind at 1, fetch at 1. now rewrite E.
  - intros r E Hok Hst. unfold bind at 1, fetch at 1. rewrite E, Hok.
    apply N.eqb_neq in Hst. rewrite Hst. cbn [negb andb].
    unfold bind at 1, ret at 1. rewrite Hok. reflexivity.
  - intros r m E Hok Hst E'. unfold bind at 1, fetch at 1.
    rewrite E, Hok, Hst. cbn [negb andb N.eqb Pos.eqb].
    unfold bind at 1, fetch at 1. now rewrite E'.
  - intros r r' E Hok Hst E' Hok'. unfold bind at 1, fetch at 1.
    rewrite E, Hok, Hst. cbn [negb andb N.eqb Pos.eqb].
    unfold bind at 1, fetch at 1. rewrite E', Hok'. reflexivity.
Qed.

(** *** Taking a locator apart *)

(** X11. A locator that ends in [/owner/repo], with or without one
    trailing slash, is taken apart into exactly that owner and that
    repository, whatever stands before. *)
Theorem parseRepoUrl_owner_repo (base owner repo : jsstring) :
  includes owner (js "/") = false ->
  includes repo (js "/") = false ->
  repo <> [] ->
  let url := base ++ js "/" ++ owner ++ js "/" ++ repo in
  parseRepoUrl url = Some (owner, repo)
  /\ parseRepoUrl (url ++ js "/") = Some (owner, repo).
Proof.
  intros Ho Hr Hne url. subst url.
  apply includes_slash in Ho. apply includes_slash in Hr.
  change (js "/") with [SLASH]. cbn [app].
  destruct (@parts_owner_repo base owner repo Ho Hr)
    as (Hlen & Hrepo & Howner).
  assert (E : parseRepoUrl (base ++ SLASH :: owner ++ SLASH :: repo)
              = Some (owner, repo)).
  { unfold parseRepoUrl.
    replace (replace_trailing_slash
               (base ++ SLASH :: owner ++ SLASH :: repo))
      with (base ++ SLASH :: owner ++ SLASH :: repo).
    - rewrite Hlen, Hrepo, Howner. reflexivity.
    - symmetry.
      replace (base ++ SLASH :: owner ++ SLASH :: repo)
        with ((base ++ SLASH :: owner ++ [SLASH]) ++ repo)
        by (rewrite <- !app_assoc; cbn [app]; rewrite <- app_assoc;
            reflexivity).
      now apply replace_trailing_slash_keeps. }
  split; [exact E|].
  unfold parseRepoUrl. rewrite replace_trailing_slash_drops.
  now rewrite Hlen, Hrepo, Howner.
Qed.

(** X12. When the listing has a relevant [package.json] manifest, the
    selection is not empty and starts with a manifest: the cap of 20
    never drops it. *)
Theorem limitedFiles_manifest_first (data : TreeData) (item : GitHubTreeItem) :
  In item (data_tree data) ->
  relevant item = true ->
  is_manifest (item_path item) = true ->
  exists first rest,
    limitedFiles data = first :: rest
    /\ is_manifest (item_path first) = true.
Proof.
  intros Hin Hrel Hman.
  assert (Hs : In item (sort compareFiles (relevantFiles data))).
  { apply (Permutation_in _
             (Permutation_sym (sort_perm compareFiles (relevantFiles data)))).
    unfold relevantFiles. apply filter_In. now split. }
  pose proof (@sort_sorted _ compareFiles priority priority_trans
                compareFiles_lt compareFiles_ge (relevantFiles data))
    as Hsorted.
  unfold limitedFiles.
  destruct (sort compareFiles (relevantFiles data)) as [|first rest];
    [contradiction|].
  exists first, (firstn 19 rest). split; [reflexivity|].
  destruct Hs as [-> | Hs]; [exact Hman|].
  apply StronglySorted_inv in Hsorted as [_ Hall].
  rewrite Forall_forall in Hall.
  destruct (Hall item Hs) as [H | [H _]]; [exact H | congruence].
Qed.

Lemma sample_serves :
  serves Samples.sample_net (js "acme") (js "demo") Samples.sample_data.
Proof.
  eexists. split; [|split; [|left; reflexivity]]; reflexivity.
Qed.

Lemma fetchRepoContents_requests_in_order_witness :
  exists tree_requests,
    (tree_requests = [treeUrl (js "acme") (js "demo") (js "main")]
     \/ tree_requests = [treeUrl (js "acme") (js "demo") (js "main");
                         treeUrl (js "acme") (js "demo") (js "master")])
    /\ fst (fetchRepoContents Samples.sample_net Samples.sample_url)
       = tree_requests
         ++ rawUrls (js "acme") (js "demo") Samples.sample_data
                    (limitedFiles Samples.sample_data).
Proof.
  exact (@fetchRepoContents_requests_in_order Samples.sample_net
           Samples.sample_url (js "acme") (js "demo") Samples.sample_data
           eq_refl sample_serves).
Defined.

Lemma fetchRepoContents_files_as_served_witness :
  exists files,
    snd (fetchRepoContents Samples.sample_net Samples.sample_url)
    = Return files
    /\ Forall (fun f => exists item,
                 In item (data_tree Samples.sample_data)
                 /\ item_type item = blob
                 /\ served Samples.sample_net (js "acme") (js "demo")
                           Samples.sample_data item f)
              files.
Proof.
  exact (@fetchRepoContents_files_as_served Samples.sample_net
           Samples.sample_url (js "acme") (js "demo") Samples.sample_data
           eq_refl sample_serves).
Defined.

Lemma fetchRepoContents_tree_unavailable_witness :
  fetchRepoContents MoreSamples.forbidden_net Samples.sample_url
  = ([treeUrl (js "acme") (js "demo") (js "main")],
     Throw (js "Failed to fetch repo tree: rate limit exceeded. Ensure repo is public.")).
Proof.
  pose proof (@fetchRepoContents_tree_unavailable MoreSamples.forbidden_net
                Samples.sample_url (js "acme") (js "demo") eq_refl) as H.
  cbv zeta in H. destruct H as (_ & H & _).
  apply (H MoreSamples.forbidden); [reflexivity | reflexivity | discriminate].
Defined.

Lemma parseRepoUrl_owner_repo_witness :
  parseRepoUrl (js "https://github.com/acme/demo")
  = Some (js "acme", js "demo")
  /\ parseRepoUrl (js "https://github.com/acme/demo/")
     = Some (js "acme", js "demo").
Proof.
  apply (@parseRepoUrl_owner_repo (js "https://github.com") (js "acme")
           (js "demo")); [reflexivity | reflexivity | discriminate].
Defined.

Lemma limitedFiles_manifest_first_witness :
  exists first rest,
    limitedFiles Samples.sample_data = first :: rest
    /\ is_manifest (item_path first) = true.
Proof.
  apply (@limitedFiles_manifest_first Samples.sample_data
           (Samples.entry "package.json" blob));
    [|reflexivity | reflexivity].
  do 7 right. left. reflexivity.
Defined.

End FetcherFacts.

(* ===================================================================== *)
(** ** More on the controller *)
(* ===================================================================== *)

Module RunFacts.
Import JsString Controller ControllerSpec Display Runs.

Lemma added_app (a a' : App) (evs evs' : list Event) :
  added (a, evs) (a', evs ++ evs') = evs'.
Proof.
  unfold added. cbn [snd]. rewrite skipn_app, skipn_all, Nat.sub_diag.
  reflexivity.
Qed.

Lemma added_more (a a' : App) (evs l1 l2 : list Event) :
  added (a, evs ++ l1) (a', evs ++ l1 ++ l2) = l2.
Proof. rewrite app_assoc. apply added_app. Qed.

Section Handlers.
Context {services : Services}.

Ltac open_world w :=
  destruct w as [[u o e i r [st lg fp er] fs] evs];
  cbn [fst snd repoUrl objective errorFeedback referenceImages
       refinementInput state repoFilesRef status missionLog finalPrompt
       error] in *.

Ltac run :=
  cbv beta iota zeta delta
    [executePipeline executeRefinement bind try_catch setState
     setRepoFiles setRefinementInput await ret with_status
     with_missionLog with_state with_files with_feedback
     fst snd repoUrl objective errorFeedback referenceImages
     refinementInput state repoFilesRef status missionLog finalPrompt
     error orb falsy falsy_opt].

(** Every outcome of the awaited calls, one after the other. *)
Ltac outcomes :=
  run;
  repeat match goal with
         | |- context [match ?c with Return _ => _ | Throw _ => _ end] =>
             destruct c; run
         end.

Ltac appended :=
  eexists; rewrite <- ?app_assoc; cbn [app]; reflexivity.

(** X13. Both handlers always resolve, never reject, and only append
    to what an observer has seen; of the hooks, [executePipeline] can
    change the agent state and the retained files only. *)
Theorem handlers_resolve (w : World) :
  let p := executePipeline w in
  let q := executeRefinement w in
  (fst p = Return tt
   /\ (exists evs, snd (snd p) = snd w ++ evs)
   /\ fst (snd p)
      = with_files (repoFilesRef (fst (snd p)))
          (with_state (state (fst (snd p))) (fst w)))
  /\ (fst q = Return tt /\ exists evs, snd (snd q) = snd w ++ evs).
Proof.
  intros p q. subst p q. open_world w. split.
  - destruct u as [|c u]; [run; repeat split; exists []; now rewrite app_nil_r|].
    destruct o as [|c' o]; [run; repeat split; exists []; now rewrite app_nil_r|].
    outcomes; (split; [reflexivity|]); (split; [appended | reflexivity]).
  - destruct r as [|c r]; [run; split; [reflexivity|]; exists []; now rewrite app_nil_r|].
    destruct fp as [[|c' p]|];
      [run; split; [reflexivity|]; exists []; now rewrite app_nil_r | |
       run; split; [reflexivity|]; exists []; now rewrite app_nil_r].
    outcomes; (split; [reflexivity | appended]).
Qed.

(** X14. A run of [executePipeline] ends either completed, with a
    final prompt and no error, or in error, with an error and no final
    prompt; no other combination is left behind. *)
Theorem executePipeline_settles (w : World) :
  repoUrl (fst w) <> [] ->
  objective (fst w) <> [] ->
  settled (state (fst (snd (executePipeline w)))).
Proof.
  open_world w. intros Hurl Hobj.
  destruct u as [|c u]; [contradiction|].
  destruct o as [|c' o]; [contradiction|].
  unfold settled.
  outcomes; cbn [status finalPrompt error];
    first [ left; repeat split; discriminate
          | right; repeat split; discriminate ].
Qed.

(** The events appended to [evs], oldest first. *)
Ltac appended_to t :=
  lazymatch t with
  | ?t' ++ [?x] => let l := appended_to t' in constr:(l ++ [x])
  | _ => constr:(@nil Event)
  end.

Ltac busy_run :=
  lazymatch goal with
  | |- exists mid last, ?t = _ /\ _ =>
      let l := appended_to t in
      let l := eval cbn [app] in l in
      let mid := eval cbv [removelast] in (removelast l) in
      let e := eval cbv [List.last] in (List.last l (Called (FetchRepoContents []))) in
      lazymatch e with
      | Committed ?s =>
          exists mid, s;
          (split; [rewrite <- ?app_assoc; reflexivity|]);
          (split; [repeat constructor|]); split; reflexivity
      end
  end.

(** X16. From the first state a running handler commits up to the
    last but one, the display sees a processing state; the last state
    committed is the one it is left with, and is not processing. *)
Theorem handlers_busy (w : World) :
  let a := fst w in
  (repoUrl a <> [] -> objective a <> [] ->
   let w' := snd (executePipeline w) in
   exists mid last,
     snd w' = snd w ++ mid ++ [Committed last]
     /\ Forall busy mid
     /\ isProcessing last = false
     /\ state (fst w') = last)
  /\ (forall p, finalPrompt (state a) = Some p -> p <> [] ->
      refinementInput a <> [] ->
      let w' := snd (executeRefinement w) in
      exists mid last,
        snd w' = snd w ++ mid ++ [Committed last]
        /\ Forall busy mid
        /\ isProcessing last = false
        /\ state (fst w') = last).
Proof.
  intros a. subst a. open_world w. split.
  - intros Hurl Hobj.
    destruct u as [|c u]; [contradiction|].
    destruct o as [|c' o]; [contradiction|].
    outcomes; busy_run.
  - intros p -> Hp Hfb.
    destruct p as [|c p]; [contradiction|].
    destruct r as [|c' r]; [contradiction|].
    outcomes; busy_run.
Qed.

(** X17. After a successful refinement a second [executeRefinement]
    does nothing, the feedback having been cleared; after a failed one
    it issues the same Refiner call again, prompt and feedback being
    kept. *)
Theorem executeRefinement_again (w : World) (p : jsstring) :
  let a := fst w in
  let call :=
    RefinerAgent p (refinementInput a) (missionLog (state a))
                 (repoFilesRef a) in
  let w1 := snd (executeRefinement w) in
  finalPrompt (state a) = Some p ->
  p <> [] ->
  refinementInput a <> [] ->
  (forall updated,
      runRefinerAgent p (refinementInput a) (missionLog (state a))
                      (repoFilesRef a) = Return updated ->
      executeRefinement w1 = (Return tt, w1))
  /\ (forall m,
      runRefinerAgent p (refinementInput a) (missionLog (state a))
                      (repoFilesRef a) = Throw m ->
      calls (added w1 (snd (executeRefinement w1))) = [call]).
Proof.
  intros a call w1. subst a call w1. open_world w. intros -> Hp Hfb.
  destruct p as [|c p]; [contradiction|].
  destruct r as [|c' r]; [contradiction|].
  split.
  - intros updated Hr. run. rewrite Hr. run. reflexivity.
  - intros m Hr. run. rewrite Hr. run. rewrite Hr. run.
    rewrite <- !app_assoc. cbn [app].
    match goal with
    | |- calls (added (?a1, ?evs1 ++ ?l1) (?a2, ?evs1 ++ ?l)) = _ =>
        let l2 := eval cbv [skipn List.length] in
                    (skipn (List.length l1) l) in
        change (evs1 ++ l) with (evs1 ++ l1 ++ l2);
        rewrite (added_more a1 a2 evs1 l1 l2)
    end.
    reflexivity.
Qed.

(** X18. After a run that ended in error, [executeRefinement] does
    nothing, whatever feedback is typed in. *)
Theorem executeRefinement_after_failure (w : World) (feedback : jsstring) :
  repoUrl (fst w) <> [] ->
  objective (fst w) <> [] ->
  let w' := snd (executePipeline w) in
  status (state (fst w')) = ERROR ->
  let typed := (with_feedback feedback (fst w'), snd w') in
  executeRefinement typed = (Return tt, typed).
Proof.
  open_world w. intros Hurl Hobj.
  destruct u as [|c u]; [contradiction|].
  destruct o as [|c' o]; [contradiction|].
  outcomes; intros Hst; try discriminate Hst;
    destruct feedback; reflexivity.
Qed.
(** X29. An enabled Execute Pipeline button always starts a run, and an
    enabled Auto-Fix button under a final prompt always starts a
    refinement: the first thing either handler does is to commit its
    working state. *)
Theorem buttons_start_handlers (a : App) (evs : list Event) :
  (executeDisabled a = false ->
   exists rest,
     snd (snd (executePipeline (a, evs)))
     = evs ++ Committed (mkAgentState FETCHING_REPO INITIAL_MISSION_LOG
                                      None None) :: rest)
  /\ (refineDisabled a = false ->
      falsy_opt (finalPrompt (state a)) = false ->
      exists rest,
        snd (snd (executeRefinement (a, evs)))
        = evs ++ Committed (mkAgentState REFINING (missionLog (state a))
                                         (finalPrompt (state a)) None)
                 :: rest).
Proof.
  destruct a as [u o e i r [st lg fp er] fs].
  unfold executeDisabled, refineDisabled.
  cbn [state repoUrl objective refinementInput finalPrompt missionLog].
  split.
  - intros H. rewrite !orb_false_iff in H. destruct H as [[_ Hu] Ho].
    destruct u as [|c u]; [discriminate|].
    destruct o as [|c' o]; [discriminate|].
    outcomes; appended.
  - intros H Hp. rewrite orb_false_iff in H. destruct H as [_ Hr].
    destruct r as [|c r]; [discriminate|].
    destruct fp as [[|c' p]|]; [discriminate| |discriminate].
    outcomes; appended.
Qed.
End Handlers.

Ltac evaluated := intros E; vm_compute in E; discriminate E.

Lemma executePipeline_settles_witness :
  settled (state (fst (snd (executePipeline (services := Samples.faulty)
                                            Samples.ready)))).
Proof.
  apply (@executePipeline_settles Samples.faulty Samples.ready); evaluated.
Defined.

Lemma executeRefinement_again_witness :
  let w1 :=
    snd (executeRefinement (services := Samples.steady) Samples.completed) in
  executeRefinement (services := Samples.steady) w1 = (Return tt, w1).
Proof.
  pose proof (@executeRefinement_again Samples.steady Samples.completed
                Samples.scenario) as H.
  cbv zeta in H. destruct H as [H _]; [reflexivity | evaluated | evaluated |].
  exact (H Samples.single eq_refl).
Defined.

Lemma executeRefinement_after_failure_witness :
  let w' := snd (executePipeline (services := Samples.faulty) Samples.ready) in
  let typed := (with_feedback (js "Step 2 fails") (fst w'), snd w') in
  executeRefinement (services := Samples.faulty) typed = (Return tt, typed).
Proof.
  apply (@executeRefinement_after_failure Samples.faulty Samples.ready
           (js "Step 2 fails")); first [evaluated | reflexivity].
Defined.

End RunFacts.

(* ===================================================================== *)
(** ** The agents *)
(* ===================================================================== *)

Module AgentFacts.
Import JsString JsStringFacts Controller ControllerSpec Runs.

Lemma ask_answers (g : Gemini.Request -> Exc (option jsstring))
    (request : Gemini.Request) (placeholder failure : jsstring) :
  placeholder <> [] ->
  answers (Gemini.ask g request placeholder failure) failure.
Proof.
  intros Hp. unfold answers, Gemini.ask.
  destruct (g request) as [t|m]; [left | now right].
  eexists. split; [reflexivity|].
  unfold Gemini.text_or, or_else.
  destruct t as [[|c s]|]; cbn [falsy]; first [exact Hp | discriminate].
Qed.

(** X19. Whatever the model does, each of the four agents resolves
    with a text that is not empty or rejects with its own fixed
    message. *)
Theorem agents_answer (g : Gemini.Request -> Exc (option jsstring)) :
  (forall objective errorFeedback files images,
      answers (Gemini.runScoutAgent g objective errorFeedback files images)
              SCOUT_FAILED)
  /\ (forall log objective errorFeedback images,
      answers (Gemini.runArchitectAgent g log objective errorFeedback images)
              ARCHITECT_FAILED)
  /\ (forall log files,
      answers (Gemini.runTaskmasterAgent g log files) TASKMASTER_FAILED)
  /\ (forall prompts feedback log files,
      answers (Gemini.runRefinerAgent g prompts feedback log files)
              REFINER_FAILED).
Proof.
  repeat split; intros; apply ask_answers; discriminate.
Qed.

Lemma join_includes (sep x : jsstring) (l : list jsstring) :
  In x l -> exists a b, Gemini.join sep l = a ++ x ++ b.
Proof.
  induction l as [|y l IH]; [intros []|].
  intros [-> | Hin].
  - destruct l as [|z l]; cbn [Gemini.join].
    + exists [], []. now rewrite app_nil_r.
    + exists [], (sep ++ Gemini.join sep (z :: l)). reflexivity.
  - destruct (IH Hin) as (a & b & E).
    destruct l as [|z l]; [destruct Hin|].
    cbn [Gemini.join] in *. rewrite E.
    exists (y ++ sep ++ a), b. now rewrite <- !app_assoc.
Qed.

(** X20. In the repository context handed to the agents every file
    stands as one block: its path between the START FILE markers, its
    content verbatim on the lines after, its path again between the END
    FILE markers. *)
Theorem formatRepoForPrompt_blocks (files : list Gemini.RepoFile)
    (f : Gemini.RepoFile) :
  In f files ->
  exists a b,
    Gemini.formatRepoForPrompt files
    = a ++ js "--- START FILE: " ++ GitHub.path f ++ js " ---" ++ [LF]
        ++ GitHub.content f ++ [LF]
        ++ js "--- END FILE: " ++ GitHub.path f ++ js " ---" ++ b.
Proof.
  intros Hin. unfold Gemini.formatRepoForPrompt.
  destruct (@join_includes [LF] (Gemini.fileBlock f)
              (map Gemini.fileBlock files)) as (a & b & E);
    [now apply in_map|].
  exists (a ++ [LF]), ([LF] ++ b). rewrite E.
  cbv beta zeta delta [Gemini.fileBlock Gemini.lines Gemini.join].
  rewrite <- !app_assoc. reflexivity.
Qed.

(** *** The application on the live services *)

Section Answering.
Context {services : Services}.
Hypothesis scout_answers : forall o e f i,
  answers (runScoutAgent o e f i) SCOUT_FAILED.
Hypothesis architect_answers : forall l o e i,
  answers (runArchitectAgent l o e i) ARCHITECT_FAILED.
Hypothesis taskmaster_answers : forall l f,
  answers (runTaskmasterAgent l f) TASKMASTER_FAILED.
Hypothesis refiner_answers : forall p fb l f,
  answers (runRefinerAgent p fb l f) REFINER_FAILED.

Ltac run :=
  cbv beta iota zeta delta
    [executePipeline executeRefinement bind try_catch setState
     setRepoFiles setRefinementInput await ret with_status
     with_missionLog with_state with_files with_feedback
     fst snd repoUrl objective errorFeedback referenceImages
     refinementInput state repoFilesRef status missionLog finalPrompt
     error orb falsy falsy_opt prompt_ok].

Ltac answer H :=
  match goal with
  | |- context [match ?c with Return _ => _ | Throw _ => _ end] =>
      let E := fresh "E" in
      let t := fresh "t" in
      let Ht := fresh "Ht" in
      destruct H as [(t & E & Ht) | E]; rewrite E; run
  end.

Lemma pipeline_outcome (w : World) :
  repoUrl (fst w) <> [] ->
  objective (fst w) <> [] ->
  let s := state (fst (snd (executePipeline w))) in
  (status s = COMPLETED
   /\ (exists p, finalPrompt s = Some p /\ p <> [])
   /\ missionLog s <> [])
  \/ (status s = ERROR
      /\ ((exists m, fetchRepoContents (repoUrl (fst w)) = Throw m
                     /\ error s = Some (or_else m PIPELINE_ERROR))
          \/ error s = Some SCOUT_FAILED
          \/ error s = Some ARCHITECT_FAILED
          \/ error s = Some TASKMASTER_FAILED)).
Proof.
  destruct w as [[u o e i r [st lg fp er] fs] evs].
  cbn [fst snd repoUrl objective]. intros Hurl Hobj.
  destruct u as [|c u]; [contradiction|].
  destruct o as [|c' o]; [contradiction|].
  run.
  destruct (fetchRepoContents (c :: u)) as [files|m] eqn:Ef; run.
  2:{ right. split; [reflexivity|]. left. now exists m. }
  answer (scout_answers (c' :: o) e files i).
  2:{ right. split; [reflexivity|]. right. now left. }
  answer (architect_answers t (c' :: o) e i).
  2:{ right. split; [reflexivity|]. right. right. now left. }
  answer (taskmaster_answers t0 files).
  2:{ right. split; [reflexivity|]. right. right. now right. }
  left. split; [reflexivity|]. split; [|assumption]. eauto.
Qed.

Lemma prompt_ok_kept (w : World) :
  prompt_ok (state (fst w)) ->
  prompt_ok (state (fst (snd (executePipeline w))))
  /\ prompt_ok (state (fst (snd (executeRefinement w)))).
Proof.
  destruct w as [[u o e i r [st lg fp er] fs] evs].
  cbn [fst snd state]. unfold prompt_ok at 1. cbn [finalPrompt].
  intros Hok. split.
  - destruct u as [|c u]; [run; exact Hok|].
    destruct o as [|c' o]; [run; exact Hok|].
    run.
    destruct (fetchRepoContents (c :: u)) as [files|m]; run; [|exact I].
    answer (scout_answers (c' :: o) e files i); [|exact I].
    answer (architect_answers t (c' :: o) e i); [|exact I].
    answer (taskmaster_answers t0 files); [assumption | exact I].
  - destruct r as [|c r]; [run; exact Hok|].
    destruct fp as [[|c' p]|]; [run; exact Hok| |run; exact I].
    run.
    answer (refiner_answers (c' :: p) (c :: r) lg fs);
      [assumption | exact Hok].
Qed.
End Answering.

(** X21. In the application on its real services, a run ends completed
    with a final prompt and a mission log that are not empty, or in
    error with the fetcher's message (the generic pipeline message when
    that is empty) or the fixed message of the agent that failed. *)
Theorem live_pipeline_outcome
    (net : jsstring -> Exc GitHub.Response)
    (g : Gemini.Request -> Exc (option jsstring)) (w : World) :
  repoUrl (fst w) <> [] ->
  objective (fst w) <> [] ->
  let s :=
    state (fst (snd (executePipeline (services := Gemini.services net g) w)))
  in
  (status s = COMPLETED
   /\ (exists p, finalPrompt s = Some p /\ p <> [])
   /\ missionLog s <> [])
  \/ (status s = ERROR
      /\ ((exists m,
              snd (GitHub.fetchRepoContents net (repoUrl (fst w))) = Throw m
              /\ error s = Some (or_else m PIPELINE_ERROR))
          \/ error s = Some SCOUT_FAILED
          \/ error s = Some ARCHITECT_FAILED
          \/ error s = Some TASKMASTER_FAILED)).
Proof.
  refine (@pipeline_outcome (Gemini.services net g) _ _ _ w);
    intros; apply ask_answers; discriminate.
Qed.

(** X22. In the application on its real services, neither handler ever
    leaves an empty text as final prompt, provided there was none
    before. *)
Theorem live_prompt_never_empty
    (net : jsstring -> Exc GitHub.Response)
    (g : Gemini.Request -> Exc (option jsstring)) (w : World) :
  prompt_ok (state (fst w)) ->
  prompt_ok
    (state (fst (snd (executePipeline
                        (services := Gemini.services net g) w))))
  /\ prompt_ok
       (state (fst (snd (executeRefinement
                           (services := Gemini.services net g) w)))).
Proof.
  refine (@prompt_ok_kept (Gemini.services net g) _ _ _ _ w);
    intros; apply ask_answers; discriminate.
Qed.

Ltac evaluated := intros E; vm_compute in E; discriminate E.

Lemma formatRepoForPrompt_blocks_witness :
  exists a b,
    Gemini.formatRepoForPrompt Samples.sample_files
    = a ++ js "--- START FILE: " ++ js "package.json" ++ js " ---" ++ [LF]
        ++ js "{}" ++ [LF]
        ++ js "--- END FILE: " ++ js "package.json" ++ js " ---" ++ b.
Proof.
  apply (@formatRepoForPrompt_blocks Samples.sample_files
           (GitHub.mkRepoFile (js "package.json") (js "{}") 2)).
  left. reflexivity.
Defined.

Lemma live_pipeline_outcome_witness :
  let s :=
    state (fst (snd (executePipeline
                       (services := Gemini.services Samples.sample_net
                                                    MoreSamples.echo_model)
                       Samples.ready))) in
  (status s = COMPLETED
   /\ (exists p, finalPrompt s = Some p /\ p <> [])
   /\ missionLog s <> [])
  \/ (status s = ERROR
      /\ ((exists m,
              snd (GitHub.fetchRepoContents Samples.sample_net
                     (repoUrl (fst Samples.ready))) = Throw m
              /\ error s = Some (or_else m PIPELINE_ERROR))
          \/ error s = Some SCOUT_FAILED
          \/ error s = Some ARCHITECT_FAILED
          \/ error s = Some TASKMASTER_FAILED)).
Proof.
  apply (@live_pipeline_outcome Samples.sample_net MoreSamples.echo_model
           Samples.ready); evaluated.
Defined.

Lemma live_prompt_never_empty_witness :
  prompt_ok
    (state (fst (snd (executePipeline
                        (services := Gemini.services Samples.sample_net
                                                     MoreSamples.echo_model)
                        Samples.ready))))
  /\ prompt_ok
       (state (fst (snd (executeRefinement
                           (services := Gemini.services Samples.sample_net
                                                        MoreSamples.echo_model)
                           Samples.ready)))).
Proof.
  apply (@live_prompt_never_empty Samples.sample_net MoreSamples.echo_model
           Samples.ready).
  exact I.
Defined.

End AgentFacts.

(* ===================================================================== *)
(** ** Reference images *)
(* ===================================================================== *)

Module ImageFacts.
Import JsString JsStringFacts Regex RegexFacts Images ImageTypes
  ChunkFacts FetcherFacts.

Lemma forallb_not_in (c : codeunit) (s : jsstring) :
  forallb (fun x => negb (N.eqb x c)) s = true -> ~ In c s.
Proof.
  induction s as [|x s IH]; cbn [forallb]; intros H; [intros []|].
  apply andb_true_iff in H as [Hx Hs]. intros [->|Hin].
  - rewrite N.eqb_refl in Hx. discriminate.
  - now apply IH.
Qed.

Lemma plain_type_spec (m : jsstring) :
  plain_type m = true ->
  forallb Parser.is_dot m = true /\ ~ In SEMICOLON m /\ ~ In COMMA m.
Proof.
  unfold plain_type. induction m as [|c m IH]; cbn [forallb]; intros H.
  - repeat split; intros [].
  - apply andb_true_iff in H as [Hc Hm].
    apply andb_true_iff in Hc as [Hc Hcomma].
    apply andb_true_iff in Hc as [Hdot Hsemi].
    destruct (IH Hm) as (H1 & H2 & H3). rewrite Hdot, H1.
    repeat split.
    + intros [->|Hin]; [|now apply H2].
      rewrite N.eqb_refl in Hsemi. discriminate.
    + intros [->|Hin]; [|now apply H3].
      rewrite N.eqb_refl in Hcomma. discriminate.
Qed.

(** A lazy quantifier stops at the first place its continuation
    accepts. *)
Lemma rep_lazy_stops (p : codeunit -> bool) (m s : jsstring)
    (k : jsstring -> result) (r : jsstring * captures) :
  forallb p m = true ->
  (forall a b, m = a ++ b -> b <> [] -> k (b ++ s) = None) ->
  k s = Some r ->
  rep false p 0 (m ++ s) k = Some r.
Proof.
  induction m as [|x m IH]; intros Hp Hmin Hk; cbn [app].
  - destruct s; cbn [rep]; now rewrite Hk.
  - cbn [forallb] in Hp. apply andb_true_iff in Hp as [Hx Hp].
    assert (H0 : k (x :: m ++ s) = None)
      by (apply (Hmin [] (x :: m)); [reflexivity | discriminate]).
    cbn [rep]. rewrite H0, Hx. apply IH; auto.
    intros a b -> Hb. apply (Hmin (x :: a) b); auto.
Qed.

Lemma exec_mime_header (m : jsstring) :
  forallb Parser.is_dot m = true -> ~ In SEMICOLON m ->
  Search.exec mime_regex (js "data:" ++ m ++ js ";base64")
  = Some [(1, m)].
Proof.
  intros Hdot Hsemi.
  change (js "data:" ++ m ++ js ";base64")
    with (100 :: 97 :: 116 :: 97 :: 58 :: m ++ js ";base64")%N.
  do 4 (cbn [Search.exec]; unfold exec_at at 1; cbn [run mime_regex N.eqb Pos.eqb]).
  cbn [Search.exec]. unfold exec_at. cbn [run mime_regex N.eqb Pos.eqb COLON].
  erewrite rep_lazy_stops; [| exact Hdot | | ].
  2:{ intros a b -> Hb. destruct b as [|c b]; [contradiction|].
      cbn [app]. destruct (N.eqb_spec c SEMICOLON) as [->|_]; [|reflexivity].
      exfalso. apply Hsemi. apply in_or_app. right. now left. }
  2:{ cbn [app js]. reflexivity. }
  cbn beta iota. rewrite firstn_prefix. reflexivity.
Qed.

(** X23. Reading back the data URL that the thumbnail of an image is
    shown with gives the image again, for a one-line type without
    semicolon or comma and data without comma. *)
Theorem onloadend_src (img : ImageRef) :
  plain_type (Controller.mimeType img) = true ->
  comma_free (Controller.data img) = true ->
  onloadend (src img)
  = Resolved (Some (Controller.data img)) (Controller.mimeType img).
Proof.
  intros Hm Hd. apply plain_type_spec in Hm as (Hdot & Hsemi & Hcomma).
  apply forallb_not_in in Hd.
  unfold onloadend, src.
  assert (Hsplit : split COMMA
            (js "data:" ++ Controller.mimeType img ++ js ";base64,"
               ++ Controller.data img)
          = [js "data:" ++ Controller.mimeType img ++ js ";base64";
             Controller.data img]).
  { replace (js "data:" ++ Controller.mimeType img ++ js ";base64,"
               ++ Controller.data img)
      with ((js "data:" ++ Controller.mimeType img ++ js ";base64")
              ++ COMMA :: Controller.data img)
      by (rewrite <- !app_assoc; reflexivity).
    rewrite split_app, !split_whole; [reflexivity | exact Hd |].
    intros Hin. apply in_app_or in Hin as [Hin|Hin].
    - revert Hin. cbv. intuition discriminate.
    - apply in_app_or in Hin as [Hin|Hin]; [now apply Hcomma|].
      revert Hin. cbv. intuition discriminate. }
  rewrite Hsplit. cbn [nth nth_error].
  rewrite exec_mime_header by assumption. reflexivity.
Qed.

(** *** Removing an image *)

Lemma filter_from_index (A : Type) (index k : nat) (l : list A) :
  filter_from (fun _ i => negb (Nat.eqb i index)) k l
  = if Nat.ltb index k then l
    else firstn (index - k) l ++ skipn (S (index - k)) l.
Proof.
  revert k; induction l as [|x l IH]; intros k; cbn [filter_from].
  - destruct (Nat.ltb index k); [reflexivity|].
    now rewrite firstn_nil, skipn_nil.
  - rewrite IH. destruct (Nat.eqb_spec k index) as [->|Hne].
    + cbn [negb]. rewrite Nat.sub_diag.
      destruct (Nat.ltb_spec index (S index)); [|lia].
      destruct (Nat.ltb_spec index index); [lia|]. reflexivity.
    + cbn [negb].
      destruct (Nat.ltb_spec index k), (Nat.ltb_spec index (S k));
        try lia; [reflexivity|].
      replace (index - k) with (S (index - S k)) by lia. reflexivity.
Qed.

(** X24. [removeImage] takes out the image at the index and keeps the
    others in order: one image less for an index in range, the same
    list for an index out of range. *)
Theorem removeImage_at (index : nat) (prev : list ImageRef) :
  removeImage index prev = firstn index prev ++ skipn (S index) prev
  /\ (index < List.length prev ->
      S (List.length (removeImage index prev)) = List.length prev)
  /\ (List.length prev <= index -> removeImage index prev = prev).
Proof.
  assert (E : removeImage index prev
              = firstn index prev ++ skipn (S index) prev).
  { unfold removeImage. rewrite filter_from_index. cbn [Nat.ltb Nat.leb].
    now rewrite Nat.sub_0_r. }
  split; [exact E|]. rewrite E. split; intros H.
  - rewrite length_app, length_firstn, length_skipn. lia.
  - rewrite firstn_all2, skipn_all2 by lia. apply app_nil_r.
Qed.

(** X25. Removing an image among those just added leaves the earlier
    images as they were. *)
Theorem removeImage_added (k : nat) (processed prev : list ImageRef) :
  removeImage (List.length prev + k) (addImages processed prev)
  = addImages (removeImage k processed) prev.
Proof.
  unfold removeImage, addImages. rewrite !filter_from_index.
  cbn [Nat.ltb Nat.leb]. rewrite !Nat.sub_0_r.
  rewrite firstn_app, skipn_app.
  rewrite firstn_all2, skipn_all2 by lia.
  replace (List.length prev + k - List.length prev) with k by lia.
  replace (S (List.length prev + k) - List.length prev) with (S k) by lia.
  cbn [app]. now rewrite <- app_assoc.
Qed.

Lemma onloadend_src_witness :
  onloadend (src MoreSamples.png)
  = Resolved (Some (js "iVBORw0KGgo=")) (js "image/png").
Proof.
  apply (@onloadend_src MoreSamples.png); reflexivity.
Defined.

End ImageFacts.

(* ===================================================================== *)
(** ** The display *)
(* ===================================================================== *)

Module DisplayFacts.
Import JsString Controller Display.

(** X26. In every status each agent card shows at most one of its
    three icons; the Taskmaster card always shows one, the Scout and the
    Architect card show none exactly in the error status. *)
Theorem cards_one_icon (st : AgentStatus) :
  icons (scoutCard st) <= 1
  /\ icons (architectCard st) <= 1
  /\ icons (taskmasterCard st) = 1
  /\ (icons (scoutCard st) = 0 <-> st = ERROR)
  /\ (icons (architectCard st) = 0 <-> st = ERROR).
Proof.
  destruct st; cbn; repeat split; intros; try lia; try discriminate;
    try reflexivity.
Qed.

(** X27. The cards follow the pipeline: a card is active or completed
    only when every earlier card is completed, and while the first card
    is pending so are the later ones. *)
Theorem cards_in_order (st : AgentStatus) :
  (isActive (architectCard st) || isCompleted (architectCard st) = true ->
   isCompleted (scoutCard st) = true)
  /\ (isActive (taskmasterCard st) || isCompleted (taskmasterCard st) = true ->
      isCompleted (architectCard st) = true
      /\ isCompleted (scoutCard st) = true)
  /\ (isPending (scoutCard st) = true ->
      isPending (architectCard st) = true
      /\ isPending (taskmasterCard st) = true).
Proof.
  destruct st; cbn; repeat split; intros; try discriminate; reflexivity.
Qed.

(** X28. A [code] element is rendered inline exactly when it has no
    class name: the language pattern has no influence on it. *)
Theorem isInline_no_class (className : option jsstring) :
  isInline className = falsy_opt className.
Proof.
  unfold isInline.
  destruct className as [[|c s]|]; cbn [falsy_opt falsy or_else].
  - reflexivity.
  - apply andb_false_r.
  - reflexivity.
Qed.

End DisplayFacts.
